(** * merging_logs.py: two-way merge of timestamp-ordered JSONL logs

    Shallow embedding of [src/merging_logs.py] and the properties of its
    merge.  Python values are modelled by the JSON values [json.loads]
    can return, generators by the finite sequence of values they yield
    followed by how they end, and the filesystem by a finite map from
    paths to nodes.  The three library functions the program calls
    ([json.loads], [json.dumps], [datetime.strptime]) are parameters of
    the development. *)

From Stdlib Require Import ZArith Lia Sorted Permutation Ascii String.
From Stdlib Require Import Floats.SpecFloat.
From stdpp Require Import gmap strings list pretty.

Local Open Scope string_scope.
Local Open Scope Z_scope.

(** ** Python values *)

(** What [json.loads] returns: [None], [bool], [int], [float], [str],
    [list] and [dict].  A [dict] keeps its insertion order, which is
    the order [json.dumps] writes it back in. *)
#[local] Unset Elimination Schemes.
Inductive json : Type :=
| JNull
| JBool (b : bool)
| JInt (n : Z)
| JFloat (f : spec_float)
| JStr (s : string)
| JList (items : list json)
| JDict (items : list (string * json)).
#[local] Set Elimination Schemes.

(** [None] is the value [json.loads] gives for [null], and the value
    [next_log] returns for an exhausted reader. *)
Definition None_ : json := JNull.

Definition float_is_zero (f : spec_float) : bool :=
  match f with
  | S754_zero _ => true
  | _ => false
  end.

(** Truth value testing, as [if x], [x or y], [not x] apply it. *)
Definition truthy (v : json) : bool :=
  match v with
  | JNull => false
  | JBool b => b
  | JInt n => negb (n =? 0)
  | JFloat f => negb (float_is_zero f)
  | JStr s => negb (String.eqb s "")
  | JList items => match items with [] => false | _ => true end
  | JDict items => match items with [] => false | _ => true end
  end.

(** [d.get(key)]: the value stored under [key], [None] when absent. *)
Fixpoint dict_get (items : list (string * json)) (key : string) : json :=
  match items with
  | [] => None_
  | (k, v) :: rest => if String.eqb k key then v else dict_get rest key
  end.

Fixpoint dict_has (items : list (string * json)) (key : string) : bool :=
  match items with
  | [] => false
  | (k, _) :: rest => String.eqb k key || dict_has rest key
  end.

(** ** Exceptions *)

Inductive exn : Type :=
| JSONDecodeError (msg doc : string) (pos : Z)
| UnicodeDecodeError
| TypeError
| ValueError
| AttributeError
| FileExistsError (msg : string)
| OSError
| RecursionError.

(** ** Naive datetimes *)

(** The value [datetime.strptime] builds for [DATE_TIME_FORMAT]: no
    time zone and no microseconds. *)
Record datetime : Type := mk_datetime {
  year : Z; month : Z; day : Z; hour : Z; minute : Z; second : Z
}.

Definition datetime_key (d : datetime) : list Z :=
  [year d; month d; day d; hour d; minute d; second d].

(** Comparison of tuples, component by component. *)
Fixpoint lex_compare (xs ys : list Z) : comparison :=
  match xs, ys with
  | [], [] => Eq
  | [], _ :: _ => Lt
  | _ :: _, [] => Gt
  | x :: xs', y :: ys' =>
      match x ?= y with
      | Eq => lex_compare xs' ys'
      | c => c
      end
  end.

(** [a <= b] on naive datetimes. *)
Definition datetime_le (a b : datetime) : bool :=
  match lex_compare (datetime_key a) (datetime_key b) with
  | Gt => false
  | _ => true
  end.

(** ** Generators *)

(** A generator over finite input, unfolded: the values it yields, then
    either [StopIteration] ([Done]) or an exception ([Raise]). *)
Inductive gen : Type :=
| Done
| Raise (e : exn)
| Yield (v : json) (rest : gen).

Fixpoint gen_size (g : gen) : nat :=
  match g with
  | Yield _ rest => S (gen_size rest)
  | _ => O
  end.

(** The values a generator yields before it ends. *)
Fixpoint yielded (g : gen) : list json :=
  match g with
  | Yield v rest => v :: yielded rest
  | _ => []
  end.

(** How a generator ends: [None] for [StopIteration]. *)
Fixpoint ending (g : gen) : option exn :=
  match g with
  | Done => None
  | Raise e => Some e
  | Yield _ rest => ending rest
  end.

Fixpoint gen_of_list (vs : list json) : gen :=
  match vs with
  | [] => Done
  | v :: rest => Yield v (gen_of_list rest)
  end.

(** ** The filesystem *)

(** A path is the sequence of its components, as [pathlib] keeps it. *)
Definition path : Type := list string.

(** A file is the list of its lines, each with its line terminator:
    what [for line in file] iterates over, and what one call of
    [file.write] appends. *)
Inductive node : Type :=
| File (lines : list string)
| Dir.

Abbreviation filesystem := (gmap (list string) node).

Definition path_exists (fs : filesystem) (p : path) : bool :=
  match fs !! p with
  | Some _ => true
  | None => false
  end.

Definition is_file (fs : filesystem) (p : path) : bool :=
  match fs !! p with
  | Some (File _) => true
  | _ => false
  end.

(** [p / name] *)
Definition path_join (p : path) (name : string) : path := (p ++ [name])%list.

(** [str(p)]: the parts joined by [/], a root first when the first
    part is one, and [.] for the path without parts. *)
Definition path_str (p : path) : string :=
  match p with
  | [] => "."
  | first :: rest =>
      if String.eqb first "/" || String.eqb first "//"
      then first ++ String.concat "/" rest
      else String.concat "/" p
  end.

(** The proper, non-empty prefixes of a path, shortest first. *)
Definition ancestors (p : path) : list path :=
  map (fun n => take n p) (seq 1 (length p - 1)).

(** Create the missing directories among [dirs]; a regular file in the
    way makes the system call fail. *)
Fixpoint make_dirs (fs : filesystem) (dirs : list path) : exn + filesystem :=
  match dirs with
  | [] => inr fs
  | d :: rest =>
      match fs !! d with
      | Some (File _) => inl OSError
      | Some Dir => make_dirs fs rest
      | None => make_dirs (<[d := Dir]> fs) rest
      end
  end.

(** [p.mkdir(parents=True)] *)
Definition mkdir_parents (fs : filesystem) (p : path) : exn + filesystem :=
  match fs !! p with
  | Some _ => inl OSError
  | None =>
      match make_dirs fs (ancestors p) with
      | inl e => inl e
      | inr fs' => inr (<[p := Dir]> fs')
      end
  end.

Definition LOG_FILENAME : string := "merged_log.jsonl".
Definition DATE_TIME_FORMAT : string := "%Y-%m-%d %H:%M:%S".

Definition double_quote : string := String (Ascii.ascii_of_nat 34) EmptyString.
Definition newline : string := String (Ascii.ascii_of_nat 10) EmptyString.

Definition b2n (b : bool) : nat := if b then 1%nat else 0%nat.

(** [FileExistsError(f'Folder "{output_dir}" already exists.')] *)
Definition target_exists_error (output_dir : path) : exn :=
  FileExistsError
    ("Folder " ++ double_quote ++ path_str output_dir ++ double_quote
     ++ " already exists.").

(** [FileExistsError('Log files do not exist or paths are incorrect.')] *)
Definition input_not_found_error : exn :=
  FileExistsError "Log files do not exist or paths are incorrect.".

(** ** The library functions the program calls *)

(** [json.loads] on the bytes of one line, [json.dumps] followed by
    [.encode('utf-8')], and [datetime.strptime]; each either returns or
    raises. *)
Class library : Type := {
  json_loads : string -> exn + json;
  json_dumps : json -> exn + string;
  strptime : string -> string -> option datetime
}.

Section MergingLogs.

Context {L : library}.

(** [for line in file: yield json.loads(line)] *)
Fixpoint read_lines (lines : list string) : gen :=
  match lines with
  | [] => Done
  | line :: rest =>
      match json_loads line with
      | inl e => Raise e
      | inr v => Yield v (read_lines rest)
      end
  end.

(** The generator starts when it is first pulled: it opens the file
    as it is in the filesystem at that moment. *)
Definition open_file_generator (log_file : path) (fs : filesystem) : gen :=
  match fs !! log_file with
  | Some (File lines) => read_lines lines
  | _ => Raise OSError
  end.

(** [next(g)], with [StopIteration] turned into [None]; the second
    component is the generator after the pull. *)
Definition next_log (log_from_file_generator : gen) : exn + (json * gen) :=
  match log_from_file_generator with
  | Yield v rest => inr (v, rest)
  | Done => inr (None_, Done)
  | Raise e => inl e
  end.

(** [datetime.strptime(log_instance.get('timestamp'), DATE_TIME_FORMAT)]:
    [AttributeError] when the value has no [get], [TypeError] when the
    first argument of [strptime] is not a [str], [ValueError] when
    the string does not parse. *)
Definition get_log_time (log_instance : json) : exn + datetime :=
  match log_instance with
  | JDict items =>
      match dict_get items "timestamp" with
      | JStr s =>
          match strptime s DATE_TIME_FORMAT with
          | Some t => inr t
          | None => inl ValueError
          end
      | _ => inl TypeError
      end
  | _ => inl AttributeError
  end.

(** [slot = next_log(g)] followed by the rest of the loop [k]. *)
Definition refill (g : gen) (k : json -> gen -> gen) : gen :=
  match next_log g with
  | inl e => Raise e
  | inr (v, g') => k v g'
  end.

(** One turn of the [while] loop of [sorted_log_generator], [again]
    being the loop itself. *)
Definition loop_body (again : json -> gen -> json -> gen -> gen)
    (file_log1 : json) (g1 : gen) (file_log2 : json) (g2 : gen) : gen :=
  if truthy file_log1 || truthy file_log2 then
    if truthy file_log1 && truthy file_log2 then
      match get_log_time file_log1 with
      | inl e => Raise e
      | inr t1 =>
          match get_log_time file_log2 with
          | inl e => Raise e
          | inr t2 =>
              if datetime_le t1 t2 then
                Yield file_log1 (refill g1 (fun v g => again v g file_log2 g2))
              else
                Yield file_log2 (refill g2 (fun v g => again file_log1 g1 v g))
          end
      end
    else if negb (truthy file_log1) then
      Yield file_log2 (refill g2 (fun v g => again file_log1 g1 v g))
    else if negb (truthy file_log2) then
      Yield file_log1 (refill g1 (fun v g => again v g file_log2 g2))
    else again file_log1 g1 file_log2 g2
  else Done.

(** The loop, bounded by the number of turns it may still take. *)
Fixpoint loop_upto (turns : nat) (file_log1 : json) (g1 : gen)
    (file_log2 : json) (g2 : gen) : gen :=
  match turns with
  | O => Done
  | S turns' => loop_body (loop_upto turns') file_log1 g1 file_log2 g2
  end.

(** Every turn that yields removes a record from a reader or empties
    a slot, so the loop takes at most [pending] turns. *)
Definition pending (file_log1 : json) (g1 : gen) (file_log2 : json) (g2 : gen) : nat :=
  (gen_size g1 + gen_size g2 + b2n (truthy file_log1) + b2n (truthy file_log2))%nat.

Definition loop (file_log1 : json) (g1 : gen) (file_log2 : json) (g2 : gen) : gen :=
  loop_upto (S (pending file_log1 g1 file_log2 g2)) file_log1 g1 file_log2 g2.

(** The merge of two readers: prime both slots, then loop. *)
Definition merge_generators (file_log1_generator file_log2_generator : gen) : gen :=
  refill file_log1_generator (fun file_log1 g1 =>
  refill file_log2_generator (fun file_log2 g2 =>
  loop file_log1 g1 file_log2 g2)).

Definition sorted_log_generator (log1_path log2_path : path) (fs : filesystem) : gen :=
  merge_generators (open_file_generator log1_path fs)
                   (open_file_generator log2_path fs).

(** The body of the [with] block of [create_output_file]: the lines
    written to the open file, and the exception that ends the loop,
    if any. *)
Fixpoint write_entries (merged_log_generator : gen) (written : list string)
    : option exn * list string :=
  match merged_log_generator with
  | Done => (None, written)
  | Raise e => (Some e, written)
  | Yield log_entry rest =>
      match json_dumps log_entry with
      | inl e => (Some e, written)
      | inr line => write_entries rest (written ++ [line ++ newline]%string)%list
      end
  end.

(** The generator passed in has not started; it starts at the first
    pull of the [for] loop, in the filesystem as it is then.  Leaving
    the [with] block closes the file, also when an exception leaves
    it, so the lines written so far are in the file afterwards. *)
Definition create_output_file (output_dir : path)
    (merged_log_generator : filesystem -> gen) (fs : filesystem)
    : option exn * filesystem :=
  if path_exists fs output_dir then
    (Some (target_exists_error output_dir), fs)
  else
    match mkdir_parents fs output_dir with
    | inl e => (Some e, fs)
    | inr fs1 =>
        let output_file_path := path_join output_dir LOG_FILENAME in
        let fs2 := <[output_file_path := File []]> fs1 in
        let '(raised, written) := write_entries (merged_log_generator fs2) [] in
        (raised, <[output_file_path := File written]> fs2)
    end.

(** [main], after [parse_args]; the [timeit] wrapper only prints the
    elapsed time. *)
Definition main (log_path1 log_path2 output_dir : path) (fs : filesystem)
    : option exn * filesystem :=
  if is_file fs log_path1 && is_file fs log_path2 then
    let merged_log_generator := sorted_log_generator log_path1 log_path2 in
    create_output_file output_dir merged_log_generator fs
  else
    (Some input_not_found_error, fs).

End MergingLogs.

(** ** Vocabulary of the properties *)

Section Vocabulary.

Context {L : library}.

(** Every line of the file decodes, to these records. *)
Definition decodes (lines : list string) (records : list json) : Prop :=
  Forall2 (fun line r => json_loads line = inr r) lines records.

(** The record has a ['timestamp'] string that [strptime] parses. *)
Definition well_formed (r : json) : Prop :=
  exists t, get_log_time r = inr t.

(** The parsed instant of the first record is at most that of the
    second: the comparison of the loop. *)
Definition instant_leb (r1 r2 : json) : bool :=
  match get_log_time r1, get_log_time r2 with
  | inr t1, inr t2 => datetime_le t1 t2
  | _, _ => false
  end.

Definition instant_le (r1 r2 : json) : Prop := instant_leb r1 r2 = true.

(** Every adjacent pair of records is in the order of their parsed
    instants. *)
Definition ordered (records : list json) : Prop :=
  forall (i : nat) (r r' : json),
    records !! i = Some r -> records !! S i = Some r' -> instant_le r r'.

(** The reader of [log_file] fails at the line of index [n] (line
    number [n + 1]) with [e]: the lines before it decode and
    [json.loads] raises [e] on that line. *)
Definition fails_at (log_file : path) (fs : filesystem) (n : nat) (e : exn) : Prop :=
  exists (lines : list string) (line : string) (records : list json),
    fs !! log_file = Some (File lines) /\ lines !! n = Some line
    /\ decodes (take n lines) records /\ json_loads line = inl e.

(** Every record is encoded by [json.dumps], to these strings. *)
Definition encodes (records : list json) (encoded : list string) : Prop :=
  Forall2 (fun r line => json_dumps r = inr line) records encoded.

(** The two-pointer merge on lists of records, the first list having
    priority on ties; the loop is compared with it on well-formed
    input. *)
Fixpoint merge_records (s1 : list json) : list json -> list json :=
  fix merge_right (s2 : list json) : list json :=
    match s1, s2 with
    | [], _ => s2
    | _, [] => s1
    | a :: s1', b :: s2' =>
        if instant_leb a b then a :: merge_records s1' s2
        else b :: merge_right s2'
    end.

End Vocabulary.

(** The peek slot and the reader of a source whose pending records are
    [s]. *)
Definition slot_of (s : list json) : json := hd None_ s.
Definition reader_of (s : list json) : gen := gen_of_list (tl s).

(** The lines [create_output_file] writes for these encodings. *)
Definition written_lines (encoded : list string) : list string :=
  map (fun line => line ++ newline) encoded.

(** ** A sample library and sample files *)

Definition quoted (s : string) : string := double_quote ++ s ++ double_quote.

(** *** Strings, as [json.dumps] writes them *)

Definition hex_char (n : Z) : ascii :=
  nth (Z.to_nat n)
    ["0"; "1"; "2"; "3"; "4"; "5"; "6"; "7"; "8"; "9";
     "a"; "b"; "c"; "d"; "e"; "f"]%char "0"%char.

Definition hex4 (n : Z) : string :=
  String (hex_char (n / 4096 mod 16))
    (String (hex_char (n / 256 mod 16))
       (String (hex_char (n / 16 mod 16))
          (String (hex_char (n mod 16)) EmptyString))).

Definition continuation (b : Z) : bool := (128 <=? b) && (b <=? 191).

(** The code points of a string held as UTF-8 bytes; [None] when the
    bytes are not the encoding of a string. *)
Fixpoint code_points (bytes : list Z) : option (list Z) :=
  match bytes with
  | [] => Some []
  | b0 :: rest =>
      if b0 <? 128 then cons b0 <$> code_points rest
      else if (194 <=? b0) && (b0 <=? 223) then
        match rest with
        | b1 :: rest1 =>
            if continuation b1
            then cons ((b0 - 192) * 64 + (b1 - 128)) <$> code_points rest1
            else None
        | _ => None
        end
      else if (224 <=? b0) && (b0 <=? 239) then
        match rest with
        | b1 :: b2 :: rest2 =>
            let cp := (b0 - 224) * 4096 + (b1 - 128) * 64 + (b2 - 128) in
            if continuation b1 && continuation b2 && (2048 <=? cp)
            then cons cp <$> code_points rest2
            else None
        | _ => None
        end
      else if (240 <=? b0) && (b0 <=? 244) then
        match rest with
        | b1 :: b2 :: b3 :: rest3 =>
            let cp := (b0 - 240) * 262144 + (b1 - 128) * 4096
                      + (b2 - 128) * 64 + (b3 - 128) in
            if continuation b1 && continuation b2 && continuation b3
               && (65536 <=? cp) && (cp <=? 1114111)
            then cons cp <$> code_points rest3
            else None
        | _ => None
        end
      else None
  end.

Definition backslash : string := String (Ascii.ascii_of_nat 92) EmptyString.

(** One character between the quotes, with [ensure_ascii]. *)
Definition escape_code_point (cp : Z) : string :=
  if cp =? 34 then backslash ++ double_quote
  else if cp =? 92 then backslash ++ backslash
  else if cp =? 8 then backslash ++ "b"
  else if cp =? 12 then backslash ++ "f"
  else if cp =? 10 then backslash ++ "n"
  else if cp =? 13 then backslash ++ "r"
  else if cp =? 9 then backslash ++ "t"
  else if (32 <=? cp) && (cp <=? 126)
  then String (Ascii.ascii_of_nat (Z.to_nat cp)) EmptyString
  else if cp <? 65536 then backslash ++ "u" ++ hex4 cp
  else backslash ++ "u" ++ hex4 (55296 + (cp - 65536) / 1024)
       ++ backslash ++ "u" ++ hex4 (56320 + (cp - 65536) mod 1024).

Definition string_bytes (s : string) : list Z :=
  map (fun c => Z.of_nat (Ascii.nat_of_ascii c)) (list_ascii_of_string s).

Definition dumps_string (s : string) : option string :=
  match code_points (string_bytes s) with
  | Some cps => Some (quoted (String.concat "" (map escape_code_point cps)))
  | None => None
  end.

(** *** Floats, as [repr] writes them *)

(** [k] with [10 ^ (k - 1) <= num / den < 10 ^ k], looked for upwards
    or downwards from 0. *)
Fixpoint decimal_point_up (fuel : nat) (num den k : Z) : Z :=
  match fuel with
  | O => k
  | S fuel' =>
      if num <? den * 10 ^ k then k else decimal_point_up fuel' num den (k + 1)
  end.

Fixpoint decimal_point_down (fuel : nat) (num den k : Z) : Z :=
  match fuel with
  | O => k
  | S fuel' =>
      if den <=? num * 10 ^ (- k + 1) then k
      else decimal_point_down fuel' num den (k - 1)
  end.

Definition decimal_point (num den : Z) : Z :=
  if den <=? num then decimal_point_up 400 num den 1
  else decimal_point_down 400 num den 0.

(** [c * 10 ^ t] compared with [num / den]. *)
Definition compare_decimal (c t num den : Z) : comparison :=
  (c * 10 ^ Z.max t 0 * den) ?= (num * 10 ^ Z.max (- t) 0).

Fixpoint strip_zeros (m : positive) (e : Z) (fuel : nat) : positive * Z :=
  match fuel, m with
  | S fuel', xO m' => strip_zeros m' (e + 1) fuel'
  | _, _ => (m, e)
  end.

(** The digits and the position of the decimal point of the shortest
    decimal that rounds to the double [m * 2 ^ e], the nearest one
    among the shortest. *)
Fixpoint shortest_from (steps : nat) (p : Z)
    (num low high den : Z) (closed : bool) (point : Z) : option (Z * Z) :=
  match steps with
  | O => None
  | S steps' =>
      let t := point - p in
      let n := (num * 10 ^ Z.max (- t) 0) / (den * 10 ^ Z.max t 0) in
      let inside c :=
        match compare_decimal c t low den, compare_decimal c t high den with
        | Gt, Lt => true
        | Eq, Lt | Gt, Eq | Eq, Eq => closed
        | _, _ => false
        end in
      let below := inside n in
      let above := inside (n + 1) in
      let nearer_above :=
        (* [(n + 1) * 10 ^ t - v < v - n * 10 ^ t] *)
        match compare_decimal (2 * n + 1) t (2 * num) den with
        | Lt => true
        | _ => false
        end in
      if below && above then
        Some (if nearer_above then n + 1 else n, t)
      else if below then Some (n, t)
      else if above then Some (n + 1, t)
      else shortest_from steps' (p + 1) num low high den closed point
  end.

Fixpoint strip_decimal_zeros (fuel : nat) (c t : Z) : Z * Z :=
  match fuel with
  | O => (c, t)
  | S fuel' =>
      if (c mod 10 =? 0) && negb (c =? 0)
      then strip_decimal_zeros fuel' (c / 10) (t + 1)
      else (c, t)
  end.

Fixpoint zeros (n : nat) : string :=
  match n with
  | O => ""
  | S n' => String "0" (zeros n')
  end.

Definition two_digits (n : Z) : string :=
  if n <? 10 then "0" ++ pretty n else pretty n.

(** The digits [ds] with the decimal point after [point] of them. *)
Definition format_repr (ds : string) (point : Z) : string :=
  let len := Z.of_nat (String.length ds) in
  if (point <=? -4) || (16 <? point) then
    let mantissa :=
      match ds with
      | String d EmptyString => ds
      | String d rest => String d ("." ++ rest)
      | EmptyString => ds
      end in
    let x := point - 1 in
    mantissa ++ "e" ++ (if x <? 0 then "-" else "+") ++ two_digits (Z.abs x)
  else if point <=? 0 then "0." ++ zeros (Z.to_nat (- point)) ++ ds
  else if len <=? point then ds ++ zeros (Z.to_nat (point - len)) ++ ".0"
  else String.substring 0 (Z.to_nat point) ds ++ "."
       ++ String.substring (Z.to_nat point) (Z.to_nat (len - point)) ds.

Definition finite_repr (m : positive) (e : Z) : option string :=
  let '(m, e) := strip_zeros m e 2000 in
  let bits := Z.log2 (Zpos m) + 1 in
  if (bits <=? 53) && (-1074 <=? e) && (e + bits <=? 1024) then
    let E := Z.max (e + bits - 53) (-1074) in
    let M := Zpos m * 2 ^ (e - E) in
    let sh := E - 2 in
    let unit := 2 ^ Z.max sh 0 in
    let den := 2 ^ Z.max (- sh) 0 in
    let num := 4 * M * unit in
    let high := num + 2 * unit in
    let low := if (M =? 2 ^ 52) && (-1074 <? E) then num - unit else num - 2 * unit in
    let point := decimal_point num den in
    match shortest_from 18 1 num low high den (Z.even M) point with
    | Some (c, t) =>
        let '(c, t) := strip_decimal_zeros 20 c t in
        let ds := pretty c in
        Some (format_repr ds (t + Z.of_nat (String.length ds)))
    | None => None
    end
  else None.

Definition dumps_float (f : spec_float) : option string :=
  match f with
  | S754_zero false => Some "0.0"
  | S754_zero true => Some "-0.0"
  | S754_infinity false => Some "Infinity"
  | S754_infinity true => Some "-Infinity"
  | S754_nan => Some "NaN"
  | S754_finite sign m e =>
      match finite_repr m e with
      | Some r => Some (if sign then "-" ++ r else r)
      | None => None
      end
  end.

(** [json.dumps] on the values [json.loads] returns: [None], booleans,
    integers, floats, strings, lists and dicts.  It is undefined on
    what is not such a value: a float that is no double, a string
    whose bytes are no UTF-8. *)
Fixpoint sample_dumps (v : json) : option string :=
  match v with
  | JNull => Some "null"
  | JBool true => Some "true"
  | JBool false => Some "false"
  | JInt n => Some (pretty n)
  | JFloat f => dumps_float f
  | JStr s => dumps_string s
  | JList items =>
      let fix go (vs : list json) : option string :=
        match vs with
        | [] => Some ""
        | v :: rest =>
            match sample_dumps v, go rest with
            | Some x, Some y =>
                Some (x ++ (match rest with [] => "" | _ => ", " end) ++ y)
            | _, _ => None
            end
        end in
      match go items with
      | Some body => Some ("[" ++ body ++ "]")
      | None => None
      end
  | JDict items =>
      let fix go (kvs : list (string * json)) : option string :=
        match kvs with
        | [] => Some ""
        | (k, v) :: rest =>
            match dumps_string k, sample_dumps v, go rest with
            | Some key, Some x, Some y =>
                Some (key ++ ": " ++ x
                      ++ (match rest with [] => "" | _ => ", " end) ++ y)
            | _, _, _ => None
            end
        end in
      match go items with
      | Some body => Some ("{" ++ body ++ "}")
      | None => None
      end
  end.

Definition sample_json_dumps (v : json) : exn + string :=
  match sample_dumps v with
  | Some s => inr s
  | None => inl ValueError
  end.

Definition log_record (timestamp m : string) : json :=
  JDict [("timestamp", JStr timestamp); ("m", JStr m)].

Definition rec_a1 : json := log_record "2024-01-01 10:00:00" "a1".
Definition rec_b1 : json := log_record "2024-01-01 10:00:00" "b1".
Definition rec_b2 : json := log_record "2024-01-01 11:00:00" "b2".
Definition rec_no_timestamp : json := JDict [("m", JStr "no timestamp")].
Definition rec_number_timestamp : json := JDict [("timestamp", JInt 5)].
Definition rec_bad_timestamp : json := JDict [("timestamp", JStr "yesterday")].
Definition rec_empty : json := JDict [].

(** The text of a sample record, and the line of a JSONL file that
    holds it. *)
Definition text_of (r : json) : string :=
  match sample_dumps r with
  | Some s => s
  | None => ""
  end.

Definition line_of (r : json) : string := text_of r ++ newline.

Definition bad_line : string := "{oops" ++ newline.

Definition sample_records : list json :=
  [rec_a1; rec_b1; rec_b2; rec_no_timestamp; rec_number_timestamp;
   rec_bad_timestamp; rec_empty].

Fixpoint lookup_line (line : string) (records : list json) : option json :=
  match records with
  | [] => None
  | r :: rest => if String.eqb line (line_of r) then Some r else lookup_line line rest
  end.

(** [json.loads] on the lines of the sample files: the lines of the
    sample records and [bad_line], on which it raises at the character
    after the brace.  The sample has no other line; one is given the
    error of a line that starts no JSON value. *)
Definition sample_json_loads (line : string) : exn + json :=
  match lookup_line line sample_records with
  | Some r => inr r
  | None =>
      if String.eqb line bad_line
      then inl (JSONDecodeError
                  "Expecting property name enclosed in double quotes" line 1)
      else inl (JSONDecodeError "Expecting value" line 0)
  end.

Definition digit (c : ascii) : option Z :=
  let n := Ascii.nat_of_ascii c in
  if (48 <=? n)%nat && (n <=? 57)%nat then Some (Z.of_nat n - 48) else None.

Definition number (cs : list ascii) : option Z :=
  foldl (fun acc c =>
           match acc, digit c with
           | Some a, Some d => Some (10 * a + d)
           | _, _ => None
           end) (Some 0) cs.

Definition is_leap (y : Z) : bool :=
  (y mod 4 =? 0) && (negb (y mod 100 =? 0) || (y mod 400 =? 0)).

Definition days_in_month (y m : Z) : Z :=
  if m =? 2 then (if is_leap y then 29 else 28)
  else if (m =? 4) || (m =? 6) || (m =? 9) || (m =? 11) then 30
  else 31.

Definition is_digit (c : ascii) : bool :=
  match digit c with
  | Some _ => true
  | None => false
  end.

(** The characters [\s] matches, among the ASCII ones. *)
Definition is_space (c : ascii) : bool :=
  let n := Ascii.nat_of_ascii c in
  (n =? 32)%nat || ((9 <=? n)%nat && (n <=? 13)%nat)
  || ((28 <=? n)%nat && (n <=? 31)%nat).

(** The longest run of digits at the head of [cs], and what follows. *)
Fixpoint digit_run (cs : list ascii) : list ascii * list ascii :=
  match cs with
  | [] => ([], [])
  | c :: rest =>
      if is_digit c then
        let '(ds, tail) := digit_run rest in (c :: ds, tail)
      else ([], cs)
  end.

(** A field of [lo] to [hi] digits: [%Y] has four, the others one or
    two. *)
Definition digits_field (lo hi : nat) (cs : list ascii) : option (Z * list ascii) :=
  let '(ds, tail) := digit_run cs in
  if (lo <=? length ds)%nat && (length ds <=? hi)%nat then
    match number ds with
    | Some n => Some (n, tail)
    | None => None
    end
  else None.

(** [%d] also takes a space followed by one digit. *)
Definition day_field (cs : list ascii) : option (Z * list ascii) :=
  match cs with
  | " "%char :: d :: tail =>
      match digit d with
      | Some n => Some (n, tail)
      | None => None
      end
  | _ => digits_field 1 2 cs
  end.

Definition literal (c : ascii) (cs : list ascii) : option (list ascii) :=
  match cs with
  | c' :: tail => if Ascii.eqb c c' then Some tail else None
  | [] => None
  end.

Fixpoint skip_spaces (cs : list ascii) : list ascii :=
  match cs with
  | c :: tail => if is_space c then skip_spaces tail else cs
  | [] => []
  end.

(** The space of the format stands for one or more whitespace
    characters. *)
Definition spaces (cs : list ascii) : option (list ascii) :=
  match cs with
  | c :: tail => if is_space c then Some (skip_spaces tail) else None
  | [] => None
  end.

(** The fields of a string that matches [DATE_TIME_FORMAT] to its
    end. *)
Definition match_format (cs : list ascii) : option (Z * Z * Z * Z * Z * Z) :=
  '(y, cs) ← digits_field 4 4 cs;
  cs ← literal "-" cs;
  '(m, cs) ← digits_field 1 2 cs;
  cs ← literal "-" cs;
  '(d, cs) ← day_field cs;
  cs ← spaces cs;
  '(h, cs) ← digits_field 1 2 cs;
  cs ← literal ":" cs;
  '(n, cs) ← digits_field 1 2 cs;
  cs ← literal ":" cs;
  '(sec, cs) ← digits_field 1 2 cs;
  match cs with
  | [] => Some (y, m, d, h, n, sec)
  | _ :: _ => None
  end.

(** [datetime.strptime] with [DATE_TIME_FORMAT] on ASCII strings: the
    fields are matched, padded with a zero or not, and the datetime is
    built when they are in range. *)
Definition sample_strptime (s format : string) : option datetime :=
  if String.eqb format DATE_TIME_FORMAT then
    match match_format (list_ascii_of_string s) with
    | Some (y, m, d, h, n, sec) =>
        if (1 <=? y) && (1 <=? m) && (m <=? 12) && (1 <=? d)
           && (d <=? days_in_month y m) && (h <=? 23) && (n <=? 59)
           && (sec <=? 59)
        then Some (mk_datetime y m d h n sec)
        else None
    | None => None
    end
  else None.

Definition sample_fs : filesystem :=
  {[ ["logs"; "a.jsonl"] := File [line_of rec_a1];
     ["logs"; "b.jsonl"] := File [line_of rec_b1; line_of rec_b2];
     ["logs"; "empty.jsonl"] := File [];
     ["logs"; "broken.jsonl"] := File [bad_line; line_of rec_b2];
     ["logs"; "cut.jsonl"] := File [line_of rec_a1; bad_line];
     ["logs"; "untimed.jsonl"] := File [line_of rec_a1; line_of rec_no_timestamp];
     ["logs"; "hole.jsonl"] := File [line_of rec_a1; line_of rec_empty; line_of rec_b2];
     ["logs"] := Dir;
     ["merged"] := Dir;
     [] := Dir ]}.

Definition a_path : path := ["logs"; "a.jsonl"].
Definition b_path : path := ["logs"; "b.jsonl"].
Definition empty_path : path := ["logs"; "empty.jsonl"].
Definition broken_path : path := ["logs"; "broken.jsonl"].
Definition cut_path : path := ["logs"; "cut.jsonl"].
Definition untimed_path : path := ["logs"; "untimed.jsonl"].
Definition hole_path : path := ["logs"; "hole.jsonl"].
Definition missing_path : path := ["logs"; "missing.jsonl"].

Definition sample_library : library := {|
  json_loads := sample_json_loads;
  json_dumps := sample_json_dumps;
  strptime := sample_strptime
|}.

(** ** Sample lines that are not objects *)

Definition null_line : string := "null" ++ newline.

(** [json.loads] on the sample lines and on [null]. *)
Definition scalar_json_loads (line : string) : exn + json :=
  if String.eqb line null_line then inr JNull
  else sample_json_loads line.

Definition scalar_library : library := {|
  json_loads := scalar_json_loads;
  json_dumps := sample_json_dumps;
  strptime := sample_strptime
|}.

Definition nulled_path : path := ["logs"; "nulled.jsonl"].
Definition late_path : path := ["logs"; "late.jsonl"].
Definition both_path : path := ["logs"; "both.jsonl"].

Definition scalar_fs : filesystem :=
  <[ nulled_path := File [line_of rec_a1; null_line; line_of rec_b2] ]>
    (<[ late_path := File [line_of rec_b2] ]>
       (<[ both_path := File [line_of rec_a1; line_of rec_b2] ]> sample_fs)).

(** * Properties *)

(** ** The order on datetimes *)

Lemma lex_compare_refl (xs : list Z) : lex_compare xs xs = Eq.
Proof.
  induction xs as [|x xs IH]; simpl; [reflexivity|].
  rewrite Z.compare_refl. exact IH.
Qed.

Lemma lex_compare_antisym (xs ys : list Z) :
  lex_compare ys xs = CompOpp (lex_compare xs ys).
Proof.
  revert ys. induction xs as [|x xs IH]; intros [|y ys]; simpl; try reflexivity.
  rewrite (Z.compare_antisym x y).
  destruct (x ?= y); simpl; auto.
Qed.

Lemma lex_compare_trans_le (xs ys zs : list Z) :
  lex_compare xs ys <> Gt -> lex_compare ys zs <> Gt -> lex_compare xs zs <> Gt.
Proof.
  revert ys zs. induction xs as [|x xs IH]; intros [|y ys] [|z zs]; simpl;
    try congruence.
  destruct (Z.compare_spec x y) as [Hxy|Hxy|Hxy]; try congruence;
    destruct (Z.compare_spec y z) as [Hyz|Hyz|Hyz]; try congruence;
    destruct (Z.compare_spec x z) as [Hxz|Hxz|Hxz]; try congruence; try lia.
  intros. eapply IH; eauto.
Qed.

Lemma datetime_le_refl (a : datetime) : datetime_le a a = true.
Proof. unfold datetime_le. now rewrite lex_compare_refl. Qed.

Lemma datetime_le_total (a b : datetime) :
  datetime_le a b = false -> datetime_le b a = true.
Proof.
  unfold datetime_le.
  rewrite (lex_compare_antisym (datetime_key a) (datetime_key b)).
  destruct (lex_compare (datetime_key a) (datetime_key b)); simpl; congruence.
Qed.

Lemma datetime_le_trans (a b c : datetime) :
  datetime_le a b = true -> datetime_le b c = true -> datetime_le a c = true.
Proof.
  unfold datetime_le. intros Hab Hbc.
  pose proof (lex_compare_trans_le (datetime_key a) (datetime_key b) (datetime_key c)) as H.
  destruct (lex_compare (datetime_key a) (datetime_key b)); try discriminate;
    destruct (lex_compare (datetime_key b) (datetime_key c)); try discriminate;
    destruct (lex_compare (datetime_key a) (datetime_key c)); try reflexivity;
    exfalso; apply H; congruence.
Qed.

(** ** The loop of the merge *)

Section Loop.

Context {L : library}.

Lemma pending_refill_left (v file_log1 file_log2 : json) (g1 g2 : gen) :
  truthy file_log1 = true ->
  (pending v g1 file_log2 g2 < pending file_log1 (Yield v g1) file_log2 g2)%nat.
Proof. unfold pending. intros ->. simpl. destruct (truthy v); simpl; lia. Qed.

Lemma pending_refill_right (v file_log1 file_log2 : json) (g1 g2 : gen) :
  truthy file_log2 = true ->
  (pending file_log1 g1 v g2 < pending file_log1 g1 file_log2 (Yield v g2))%nat.
Proof. unfold pending. intros ->. simpl. destruct (truthy v); simpl; lia. Qed.

Lemma pending_exhaust_left (file_log1 file_log2 : json) (g1 g2 : gen) :
  truthy file_log1 = true -> gen_size g1 = O ->
  (pending None_ Done file_log2 g2 < pending file_log1 g1 file_log2 g2)%nat.
Proof. unfold pending. intros -> ->. simpl. lia. Qed.

Lemma pending_exhaust_right (file_log1 file_log2 : json) (g1 g2 : gen) :
  truthy file_log2 = true -> gen_size g2 = O ->
  (pending file_log1 g1 None_ Done < pending file_log1 g1 file_log2 g2)%nat.
Proof. unfold pending. intros -> ->. simpl. lia. Qed.

(** Two continuations that agree on the states with fewer pending
    records give the same turn. *)
Lemma loop_body_ext (again1 again2 : json -> gen -> json -> gen -> gen)
    (file_log1 file_log2 : json) (g1 g2 : gen) :
  (forall v1 h1 v2 h2,
      (pending v1 h1 v2 h2 < pending file_log1 g1 file_log2 g2)%nat ->
      again1 v1 h1 v2 h2 = again2 v1 h1 v2 h2) ->
  loop_body again1 file_log1 g1 file_log2 g2
  = loop_body again2 file_log1 g1 file_log2 g2.
Proof.
  intros Hagree. unfold loop_body, refill.
  destruct (truthy file_log1) eqn:T1, (truthy file_log2) eqn:T2; simpl;
    try reflexivity.
  - destruct (get_log_time file_log1); [reflexivity|].
    destruct (get_log_time file_log2); [reflexivity|].
    destruct (datetime_le d d0).
    + destruct g1; simpl; f_equal; try reflexivity; apply Hagree.
      * now apply pending_exhaust_left.
      * now apply pending_refill_left.
    + destruct g2; simpl; f_equal; try reflexivity; apply Hagree.
      * now apply pending_exhaust_right.
      * now apply pending_refill_right.
  - destruct g1; simpl; f_equal; try reflexivity; apply Hagree.
    + now apply pending_exhaust_left.
    + now apply pending_refill_left.
  - destruct g2; simpl; f_equal; try reflexivity; apply Hagree.
    + now apply pending_exhaust_right.
    + now apply pending_refill_right.
Qed.

Lemma loop_upto_stable (n m : nat) :
  forall (file_log1 file_log2 : json) (g1 g2 : gen),
    (pending file_log1 g1 file_log2 g2 < n)%nat ->
    (pending file_log1 g1 file_log2 g2 < m)%nat ->
    loop_upto n file_log1 g1 file_log2 g2 = loop_upto m file_log1 g1 file_log2 g2.
Proof.
  revert m. induction n as [|n IH]; intros [|m] l1 l2 g1 g2 Hn Hm; try lia.
  simpl. apply loop_body_ext. intros v1 h1 v2 h2 Hlt. apply IH; lia.
Qed.

(** The loop satisfies the equation of the [while] statement: it
    never stops for lack of turns. *)
Lemma loop_unfold (file_log1 file_log2 : json) (g1 g2 : gen) :
  loop file_log1 g1 file_log2 g2 = loop_body loop file_log1 g1 file_log2 g2.
Proof.
  unfold loop at 1. simpl. apply loop_body_ext.
  intros v1 h1 v2 h2 Hlt. unfold loop. apply loop_upto_stable; lia.
Qed.

End Loop.

(** ** The merge on well-formed input *)

Section WellFormedInput.

Context {L : library}.

Lemma well_formed_truthy (r : json) : well_formed r -> truthy r = true.
Proof.
  intros [t Ht]. destruct r; simpl in Ht; try discriminate.
  destruct items as [|kv items]; [discriminate | reflexivity].
Qed.

Lemma yielded_gen_of_list (vs : list json) : yielded (gen_of_list vs) = vs.
Proof. induction vs as [|v vs IH]; simpl; congruence. Qed.

Lemma ending_gen_of_list (vs : list json) : ending (gen_of_list vs) = None.
Proof. induction vs as [|v vs IH]; simpl; congruence. Qed.

Lemma read_lines_decodes (lines : list string) (records : list json) :
  decodes lines records -> read_lines lines = gen_of_list records.
Proof.
  induction 1 as [|line r lines records Hline _ IH]; simpl; [reflexivity|].
  now rewrite Hline, IH.
Qed.

Lemma refill_reader (s : list json) (k : json -> gen -> gen) :
  refill (gen_of_list s) k = k (slot_of s) (reader_of s).
Proof. destruct s; reflexivity. Qed.

Lemma merge_generators_readers (s1 s2 : list json) :
  merge_generators (gen_of_list s1) (gen_of_list s2)
  = loop (slot_of s1) (reader_of s1) (slot_of s2) (reader_of s2).
Proof. unfold merge_generators. now rewrite !refill_reader. Qed.

Lemma refill_reader_cons (a : json) (s : list json) (k : json -> gen -> gen) :
  refill (reader_of (a :: s)) k = k (slot_of s) (reader_of s).
Proof. apply refill_reader. Qed.

Lemma merge_records_nil_l (s2 : list json) : merge_records [] s2 = s2.
Proof. destruct s2; reflexivity. Qed.

Lemma merge_records_nil_r (s1 : list json) : merge_records s1 [] = s1.
Proof. destruct s1; reflexivity. Qed.

(** On well-formed records the loop is the two-pointer merge. *)
Lemma loop_merge_records (s1 : list json) :
  Forall well_formed s1 ->
  forall s2 : list json,
    Forall well_formed s2 ->
    loop (slot_of s1) (reader_of s1) (slot_of s2) (reader_of s2)
    = gen_of_list (merge_records s1 s2).
Proof.
  induction 1 as [|a s1 Ha Hs1 IH1].
  - induction 1 as [|b s2 Hb Hs2 IH2]; rewrite loop_unfold; [reflexivity|].
    unfold loop_body. simpl slot_of. rewrite (well_formed_truthy b Hb).
    cbn [truthy None_ orb andb negb]. rewrite refill_reader_cons.
    rewrite merge_records_nil_l in *. cbn [gen_of_list]. f_equal. exact IH2.
  - induction 1 as [|b s2 Hb Hs2 IH2]; rewrite loop_unfold; unfold loop_body;
      simpl slot_of; rewrite (well_formed_truthy a Ha).
    + cbn [truthy None_ orb andb negb]. rewrite refill_reader_cons.
      rewrite merge_records_nil_r. cbn [gen_of_list]. f_equal.
      rewrite <- (merge_records_nil_r s1) at 3. apply (IH1 []). constructor.
    + rewrite (well_formed_truthy b Hb). cbn [orb andb].
      pose proof Ha as [ta Hta]. pose proof Hb as [tb Htb].
      rewrite Hta, Htb. rewrite !refill_reader_cons.
      assert (Hleb : instant_leb a b = datetime_le ta tb)
        by (unfold instant_leb; now rewrite Hta, Htb).
      cbn [merge_records]. rewrite Hleb.
      destruct (datetime_le ta tb); cbn [gen_of_list]; f_equal.
      * apply (IH1 (b :: s2)). now constructor.
      * exact IH2.
Qed.

Lemma merge_records_perm (s1 s2 : list json) :
  Permutation (merge_records s1 s2) (s1 ++ s2).
Proof.
  revert s2. induction s1 as [|a s1 IH1]; intros s2.
  - destruct s2; reflexivity.
  - induction s2 as [|b s2 IH2]; simpl.
    + now rewrite app_nil_r.
    + destruct (instant_leb a b).
      * constructor. apply IH1.
      * change (Permutation (b :: merge_records (a :: s1) s2)
                            (a :: s1 ++ b :: s2)).
        rewrite IH2. apply (Permutation_middle (a :: s1) s2 b).
Qed.

Lemma instant_leb_total (a b : json) :
  well_formed a -> well_formed b ->
  instant_leb a b = false -> instant_le b a.
Proof.
  intros [ta Hta] [tb Htb]. unfold instant_le, instant_leb.
  rewrite Hta, Htb. apply datetime_le_total.
Qed.

Lemma merge_records_HdRel (x : json) (s1 s2 : list json) :
  HdRel instant_le x s1 -> HdRel instant_le x s2 ->
  HdRel instant_le x (merge_records s1 s2).
Proof.
  intros H1 H2. destruct s1 as [|a s1], s2 as [|b s2]; simpl; auto.
  destruct (instant_leb a b); constructor.
  - now inversion H1.
  - now inversion H2.
Qed.

Lemma merge_records_sorted (s1 : list json) :
  Forall well_formed s1 -> Sorted instant_le s1 ->
  forall s2 : list json,
    Forall well_formed s2 -> Sorted instant_le s2 ->
    Sorted instant_le (merge_records s1 s2).
Proof.
  induction s1 as [|a s1 IH1]; intros W1 S1.
  - intros [|b s2] _ S2; exact S2.
  - apply Forall_cons_1 in W1 as [Wa W1].
    apply Sorted_inv in S1 as [S1 Ha].
    induction s2 as [|b s2 IH2]; intros W2 S2; [now constructor|].
    apply Forall_cons_1 in W2 as [Wb W2].
    apply Sorted_inv in S2 as [S2 Hb].
    simpl. destruct (instant_leb a b) eqn:Hab.
    + constructor.
      * apply IH1; try assumption; now constructor.
      * apply merge_records_HdRel; [assumption | now constructor].
    + change (Sorted instant_le (b :: merge_records (a :: s1) s2)).
      constructor.
      * now apply IH2.
      * apply merge_records_HdRel; [|assumption].
        constructor. now apply instant_leb_total.
Qed.

End WellFormedInput.

(** ** Order, ties, conservation and exhaustion *)

Section MergeProperties.

Context {L : library}.

Lemma ordered_Sorted (records : list json) :
  ordered records <-> Sorted instant_le records.
Proof.
  split.
  - induction records as [|r records IH]; intros Hord; constructor.
    + apply IH. intros i x y Hx Hy. exact (Hord (S i) x y Hx Hy).
    + destruct records as [|r' records]; constructor.
      exact (Hord O r r' eq_refl eq_refl).
  - induction 1 as [|r records Hs IH Hhd]; intros i x y Hx Hy.
    + discriminate.
    + destruct i as [|i].
      * simpl in Hx. inversion Hx; subst x.
        destruct records as [|r' records]; [discriminate|].
        simpl in Hy. inversion Hy; subst y. now inversion Hhd.
      * exact (IH i x y Hx Hy).
Qed.

(** The merge of two files whose lines decode to well-formed
    records is the two-pointer merge of the records. *)
Lemma sorted_log_generator_well_formed
    (fs : filesystem) (log1_path log2_path : path)
    (lines1 lines2 : list string) (records1 records2 : list json) :
  fs !! log1_path = Some (File lines1) ->
  fs !! log2_path = Some (File lines2) ->
  decodes lines1 records1 -> decodes lines2 records2 ->
  Forall well_formed records1 -> Forall well_formed records2 ->
  sorted_log_generator log1_path log2_path fs
  = gen_of_list (merge_records records1 records2).
Proof.
  intros H1 H2 D1 D2 W1 W2. unfold sorted_log_generator, open_file_generator.
  rewrite H1, H2, (read_lines_decodes _ _ D1), (read_lines_decodes _ _ D2).
  rewrite merge_generators_readers. now apply loop_merge_records.
Qed.

(** C1 (order property): when both input files are timestamp-ordered
    and every line decodes to a record with a ['timestamp'] string in
    the fixed format, the merge ends normally and every adjacent pair
    of records it yields is in the order of the parsed instants. *)
Theorem order_property
    (fs : filesystem) (log1_path log2_path : path)
    (lines1 lines2 : list string) (records1 records2 : list json) :
  fs !! log1_path = Some (File lines1) ->
  fs !! log2_path = Some (File lines2) ->
  decodes lines1 records1 -> decodes lines2 records2 ->
  Forall well_formed records1 -> Forall well_formed records2 ->
  ordered records1 -> ordered records2 ->
  ending (sorted_log_generator log1_path log2_path fs) = None
  /\ ordered (yielded (sorted_log_generator log1_path log2_path fs)).
Proof.
  intros H1 H2 D1 D2 W1 W2 O1 O2.
  rewrite (sorted_log_generator_well_formed fs _ _ _ _ _ _ H1 H2 D1 D2 W1 W2).
  rewrite ending_gen_of_list, yielded_gen_of_list. split; [reflexivity|].
  apply ordered_Sorted. apply merge_records_sorted; try assumption;
    now apply ordered_Sorted.
Qed.

(** C2 (tie-break property): when the two peek slots hold records
    with equal parsed instants, the turn of the loop yields the
    record of the first file, refills the first slot and keeps the
    record of the second file in its slot. *)
Theorem tie_break_property
    (file_log1 file_log2 : json) (g1 g2 : gen) (t : datetime) :
  get_log_time file_log1 = inr t ->
  get_log_time file_log2 = inr t ->
  loop file_log1 g1 file_log2 g2
  = Yield file_log1 (refill g1 (fun v g => loop v g file_log2 g2)).
Proof.
  intros H1 H2. rewrite loop_unfold. unfold loop_body.
  rewrite (well_formed_truthy file_log1), (well_formed_truthy file_log2)
    by (now exists t).
  cbn [orb andb]. rewrite H1, H2. now rewrite datetime_le_refl.
Qed.

Lemma write_entries_encodes (g : gen) (encoded written : list string) :
  encodes (yielded g) encoded ->
  write_entries g written = (ending g, (written ++ written_lines encoded)%list).
Proof.
  revert encoded written. induction g as [| e | v g IH]; intros encoded written Henc;
    simpl in *.
  - inversion Henc. simpl. now rewrite app_nil_r.
  - inversion Henc. simpl. now rewrite app_nil_r.
  - inversion Henc as [|? line ? encoded' Hv Hrest]; subst. rewrite Hv.
    rewrite (IH encoded' _ Hrest). simpl. now rewrite <- app_assoc.
Qed.

(** C3 (conservation property): when every line of both files decodes
    to a record with a valid ['timestamp'], the merge ends normally,
    yields as many records as the two files hold, every input record
    exactly once and unchanged, and the writer writes one line for
    each of them, in that order. *)
Theorem conservation_property
    (fs : filesystem) (log1_path log2_path : path)
    (lines1 lines2 : list string) (records1 records2 : list json) :
  fs !! log1_path = Some (File lines1) ->
  fs !! log2_path = Some (File lines2) ->
  decodes lines1 records1 -> decodes lines2 records2 ->
  Forall well_formed records1 -> Forall well_formed records2 ->
  let merged := sorted_log_generator log1_path log2_path fs in
  ending merged = None
  /\ length (yielded merged) = (length lines1 + length lines2)%nat
  /\ Permutation (yielded merged) (records1 ++ records2)
  /\ forall encoded : list string,
       encodes (yielded merged) encoded ->
       write_entries merged [] = (None, written_lines encoded).
Proof.
  intros H1 H2 D1 D2 W1 W2 merged.
  assert (Hm : merged = gen_of_list (merge_records records1 records2))
    by now apply (sorted_log_generator_well_formed fs _ _ lines1 lines2).
  assert (Hperm : Permutation (yielded merged) (records1 ++ records2))
    by (rewrite Hm, yielded_gen_of_list; apply merge_records_perm).
  assert (Hend : ending merged = None)
    by (rewrite Hm; apply ending_gen_of_list).
  repeat split; try assumption.
  - rewrite (Permutation_length Hperm), length_app.
    now rewrite (Forall2_length _ _ _ D1), (Forall2_length _ _ _ D2).
  - intros encoded Henc. rewrite (write_entries_encodes _ _ _ Henc).
    now rewrite Hend.
Qed.

(** C4 (exhaustion property): merging an empty file with a file [S]
    of well-formed records, in either order, yields the records of
    [S] in their order and nothing else. *)
Theorem exhaustion_property
    (fs : filesystem) (empty_path s_path : path)
    (lines : list string) (records : list json) :
  fs !! empty_path = Some (File []) ->
  fs !! s_path = Some (File lines) ->
  lines <> [] ->
  decodes lines records -> Forall well_formed records ->
  sorted_log_generator empty_path s_path fs = gen_of_list records
  /\ sorted_log_generator s_path empty_path fs = gen_of_list records.
Proof.
  intros He Hs _ D W. split.
  - rewrite (sorted_log_generator_well_formed fs _ _ [] lines [] records);
      try assumption; try constructor.
    now rewrite merge_records_nil_l.
  - rewrite (sorted_log_generator_well_formed fs _ _ lines [] records []);
      try assumption; try constructor.
    now rewrite merge_records_nil_r.
Qed.

End MergeProperties.

(** ** Falsy records *)

Section FalsyRecords.

Context {L : library}.

(** A falsy value in the first slot is the same as an exhausted
    first reader: the loop never yields it and never pulls the
    first reader again. *)
Lemma loop_falsy_left (g2 : gen) :
  forall (file_log1 file_log2 : json) (g1 : gen),
    truthy file_log1 = false ->
    loop file_log1 g1 file_log2 g2 = loop None_ Done file_log2 g2.
Proof.
  induction g2 as [| e | v g2 IH]; intros l1 l2 g1 F1;
    rewrite (loop_unfold l1), (loop_unfold None_); unfold loop_body;
    rewrite F1; cbn [truthy None_ orb andb negb];
    destruct (truthy l2); try reflexivity; f_equal; unfold refill; simpl.
  - rewrite (loop_unfold l1), (loop_unfold None_). unfold loop_body.
    rewrite F1. reflexivity.
  - now apply IH.
Qed.

Lemma loop_falsy_right (g1 : gen) :
  forall (file_log1 file_log2 : json) (g2 : gen),
    truthy file_log2 = false ->
    loop file_log1 g1 file_log2 g2 = loop file_log1 g1 None_ Done.
Proof.
  induction g1 as [| e | v g1 IH]; intros l1 l2 g2 F2;
    rewrite (loop_unfold l1 l2), (loop_unfold l1 None_); unfold loop_body;
    rewrite F2; cbn [truthy None_ orb andb negb];
    destruct (truthy l1); try reflexivity; f_equal; unfold refill; simpl.
  - rewrite (loop_unfold None_ l2), (loop_unfold None_ None_). unfold loop_body.
    rewrite F2. reflexivity.
  - now apply IH.
Qed.

(** Cutting the first file at a line that decodes to a falsy value
    does not change the loop. *)
Lemma loop_cut_left (line : string) (hole : json) (post : list string) (n : nat) :
  json_loads line = inr hole -> truthy hole = false ->
  forall (pre : list string) (file_log1 file_log2 : json) (g2 : gen),
    (pending file_log1 (read_lines pre) file_log2 g2 < n)%nat ->
    loop file_log1 (read_lines (pre ++ line :: post)) file_log2 g2
    = loop file_log1 (read_lines pre) file_log2 g2.
Proof.
  intros Hline Hhole. induction n as [|n IH]; intros pre l1 l2 g2 Hn; [lia|].
  assert (Hleft : truthy l1 = true ->
            refill (read_lines (pre ++ line :: post)) (fun v g => loop v g l2 g2)
            = refill (read_lines pre) (fun v g => loop v g l2 g2)).
  { intros T1. destruct pre as [|p pre]; unfold refill; simpl.
    - rewrite Hline. simpl. now apply loop_falsy_left.
    - destruct (json_loads p) as [e|v] eqn:Hp; simpl; [reflexivity|].
      apply IH. simpl in Hn. rewrite Hp in Hn.
      pose proof (pending_refill_left v l1 l2 (read_lines pre) g2 T1). lia. }
  assert (Hright : truthy l2 = true ->
            refill g2 (fun v g => loop l1 (read_lines (pre ++ line :: post)) v g)
            = refill g2 (fun v g => loop l1 (read_lines pre) v g)).
  { intros T2. destruct g2 as [| e | v g2]; unfold refill; simpl; try reflexivity.
    - apply IH.
      pose proof (pending_exhaust_right l1 l2 (read_lines pre) Done T2 eq_refl). lia.
    - apply IH.
      pose proof (pending_refill_right v l1 l2 (read_lines pre) g2 T2). lia. }
  rewrite (loop_unfold l1 l2 (read_lines (pre ++ line :: post))),
    (loop_unfold l1 l2 (read_lines pre)). unfold loop_body.
  destruct (truthy l1) eqn:T1, (truthy l2) eqn:T2; cbn [orb andb negb];
    try reflexivity.
  - destruct (get_log_time l1); [reflexivity|].
    destruct (get_log_time l2); [reflexivity|].
    destruct (datetime_le d d0); f_equal; auto.
  - f_equal; auto.
  - f_equal; auto.
Qed.

Lemma loop_cut_right (line : string) (hole : json) (post : list string) (n : nat) :
  json_loads line = inr hole -> truthy hole = false ->
  forall (pre : list string) (file_log1 file_log2 : json) (g1 : gen),
    (pending file_log1 g1 file_log2 (read_lines pre) < n)%nat ->
    loop file_log1 g1 file_log2 (read_lines (pre ++ line :: post))
    = loop file_log1 g1 file_log2 (read_lines pre).
Proof.
  intros Hline Hhole. induction n as [|n IH]; intros pre l1 l2 g1 Hn; [lia|].
  assert (Hright : truthy l2 = true ->
            refill (read_lines (pre ++ line :: post)) (fun v g => loop l1 g1 v g)
            = refill (read_lines pre) (fun v g => loop l1 g1 v g)).
  { intros T2. destruct pre as [|p pre]; unfold refill; simpl.
    - rewrite Hline. simpl. now apply loop_falsy_right.
    - destruct (json_loads p) as [e|v] eqn:Hp; simpl; [reflexivity|].
      apply IH. simpl in Hn. rewrite Hp in Hn.
      pose proof (pending_refill_right v l1 l2 g1 (read_lines pre) T2). lia. }
  assert (Hleft : truthy l1 = true ->
            refill g1 (fun v g => loop v g l2 (read_lines (pre ++ line :: post)))
            = refill g1 (fun v g => loop v g l2 (read_lines pre))).
  { intros T1. destruct g1 as [| e | v g1]; unfold refill; simpl; try reflexivity.
    - apply IH.
      pose proof (pending_exhaust_left l1 l2 Done (read_lines pre) T1 eq_refl). lia.
    - apply IH.
      pose proof (pending_refill_left v l1 l2 g1 (read_lines pre) T1). lia. }
  rewrite (loop_unfold l1 l2 g1 (read_lines (pre ++ line :: post))),
    (loop_unfold l1 l2 g1 (read_lines pre)). unfold loop_body.
  destruct (truthy l1) eqn:T1, (truthy l2) eqn:T2; cbn [orb andb negb];
    try reflexivity.
  - destruct (get_log_time l1); [reflexivity|].
    destruct (get_log_time l2); [reflexivity|].
    destruct (datetime_le d d0); f_equal; auto.
  - f_equal; auto.
  - f_equal; auto.
Qed.

Lemma merge_generators_cut_left (line : string) (hole : json)
    (pre post : list string) (g2 : gen) :
  json_loads line = inr hole -> truthy hole = false ->
  merge_generators (read_lines (pre ++ line :: post)) g2
  = merge_generators (read_lines pre) g2.
Proof.
  intros Hline Hhole. unfold merge_generators.
  destruct pre as [|p pre]; unfold refill at 1 3; simpl.
  - rewrite Hline. simpl.
    destruct g2 as [| e | v g2]; unfold refill; simpl; try reflexivity;
      now apply loop_falsy_left.
  - destruct (json_loads p) as [e|v]; simpl; [reflexivity|].
    destruct g2 as [| e | w g2]; unfold refill; simpl; try reflexivity;
      now apply (loop_cut_left line hole post _ Hline Hhole pre _ _ _ (Nat.lt_succ_diag_r _)).
Qed.

Lemma merge_generators_cut_right (line : string) (hole : json)
    (pre post : list string) (g1 : gen) :
  json_loads line = inr hole -> truthy hole = false ->
  merge_generators g1 (read_lines (pre ++ line :: post))
  = merge_generators g1 (read_lines pre).
Proof.
  intros Hline Hhole. unfold merge_generators.
  destruct g1 as [| e | v g1]; unfold refill at 1 3; simpl; try reflexivity.
  - destruct pre as [|p pre]; unfold refill; simpl.
    + rewrite Hline. simpl. now apply loop_falsy_right.
    + destruct (json_loads p) as [e|w]; simpl; [reflexivity|].
      now apply (loop_cut_right line hole post _ Hline Hhole pre _ _ _ (Nat.lt_succ_diag_r _)).
  - destruct pre as [|p pre]; unfold refill; simpl.
    + rewrite Hline. simpl. now apply loop_falsy_right.
    + destruct (json_loads p) as [e|w]; simpl; [reflexivity|].
      now apply (loop_cut_right line hole post _ Hline Hhole pre _ _ _ (Nat.lt_succ_diag_r _)).
Qed.

(** C10 (empty record): a line that decodes to the empty object
    [{}] ends its source for the merge.  With [{}] in a peek slot
    the loop goes on as with an exhausted reader on that side, and
    the merge of a file holding such a line is the merge of the file
    cut before that line: neither [{}] nor any later record of that
    file is yielded, and no later line of that file is decoded, so
    none can raise.  When the lines before it and the other file are
    well formed, the merge ends normally, having yielded the records
    before the [{}] line and those of the other file. *)
Theorem empty_record_ends_source
    (fs : filesystem) (cut_path whole_path other_path : path)
    (pre post : list string) (line : string) :
  json_loads line = inr (JDict []) ->
  fs !! whole_path = Some (File (pre ++ line :: post)) ->
  fs !! cut_path = Some (File pre) ->
  (forall (g1 g2 : gen) (other : json),
      loop (JDict []) g1 other g2 = loop None_ Done other g2
      /\ loop other g1 (JDict []) g2 = loop other g1 None_ Done)
  /\ sorted_log_generator whole_path other_path fs
     = sorted_log_generator cut_path other_path fs
  /\ sorted_log_generator other_path whole_path fs
     = sorted_log_generator other_path cut_path fs
  /\ (forall (other_lines : list string) (before others : list json),
        fs !! other_path = Some (File other_lines) ->
        decodes pre before -> decodes other_lines others ->
        Forall well_formed before -> Forall well_formed others ->
        ending (sorted_log_generator whole_path other_path fs) = None
        /\ Permutation (yielded (sorted_log_generator whole_path other_path fs))
                       (before ++ others)
        /\ ending (sorted_log_generator other_path whole_path fs) = None
        /\ Permutation (yielded (sorted_log_generator other_path whole_path fs))
                       (others ++ before)).
Proof.
  intros Hline Hwhole Hcut.
  assert (Hl : sorted_log_generator whole_path other_path fs
               = sorted_log_generator cut_path other_path fs).
  { unfold sorted_log_generator, open_file_generator at 1 3.
    rewrite Hwhole, Hcut. now apply (merge_generators_cut_left line (JDict [])). }
  assert (Hr : sorted_log_generator other_path whole_path fs
               = sorted_log_generator other_path cut_path fs).
  { unfold sorted_log_generator, open_file_generator at 2 4.
    rewrite Hwhole, Hcut. now apply (merge_generators_cut_right line (JDict [])). }
  split; [|split; [exact Hl | split; [exact Hr|]]].
  - intros g1 g2 other. split.
    + now apply loop_falsy_left.
    + now apply loop_falsy_right.
  - intros other_lines before others Hother Dpre Dother Wpre Wother.
    rewrite Hl, Hr.
    rewrite (sorted_log_generator_well_formed fs cut_path other_path
               pre other_lines before others) by assumption.
    rewrite (sorted_log_generator_well_formed fs other_path cut_path
               other_lines pre others before) by assumption.
    rewrite !ending_gen_of_list, !yielded_gen_of_list.
    repeat split; apply merge_records_perm.
Qed.

End FalsyRecords.

(** ** Failures of the reader and of the extractor *)

Section Failures.

Context {L : library}.

Lemma read_lines_fails (pre post : list string) (bad : string)
    (records : list json) (e : exn) :
  decodes pre records -> json_loads bad = inl e ->
  yielded (read_lines (pre ++ bad :: post)) = records
  /\ ending (read_lines (pre ++ bad :: post)) = Some e.
Proof.
  intros D Hbad. induction D as [|line r pre records Hline _ [IHy IHe]]; simpl.
  - now rewrite Hbad.
  - rewrite Hline. simpl. now rewrite IHy, IHe.
Qed.

(** C7, as the code has it: when a line of an input file does not
    decode, the reader yields the records of the lines before it and
    then raises the exception of [json.loads] for that line, as it
    is; the line is not skipped.  The exception is the one
    [json.loads] raises for the bytes of the line, whatever the file
    and the position of the line in it. *)
Theorem decode_error_propagates
    (fs : filesystem) (log_file : path) (pre post : list string)
    (bad : string) (records : list json) (e : exn) :
  fs !! log_file = Some (File (pre ++ bad :: post)) ->
  decodes pre records ->
  json_loads bad = inl e ->
  yielded (open_file_generator log_file fs) = records
  /\ ending (open_file_generator log_file fs) = Some e
  /\ fails_at log_file fs (length pre) e.
Proof.
  intros Hfile D Hbad. unfold open_file_generator. rewrite Hfile.
  destruct (read_lines_fails pre post bad records e D Hbad) as [Hy He].
  repeat split; try assumption.
  exists (pre ++ bad :: post)%list, bad, records. repeat split; try assumption.
  - now apply list_lookup_middle.
  - now rewrite take_app_length.
Qed.

Lemma dict_get_absent (items : list (string * json)) (key : string) :
  dict_has items key = false -> dict_get items key = None_.
Proof.
  induction items as [|[k v] items IH]; simpl; [reflexivity|].
  destruct (String.eqb k key); simpl; [discriminate | exact IH].
Qed.

(** C8, as the code has it: the extractor raises [TypeError] when the
    record has no ['timestamp'] key and also when the value under the
    key is not a string, and [ValueError] when the value is a string
    that [strptime] rejects.  Its result depends on the value under
    ['timestamp'] only.  When it raises in a turn of the loop the
    merge ends with that exception, which the writer passes on. *)
Theorem extractor_failures (items : list (string * json)) :
  (dict_has items "timestamp" = false ->
   get_log_time (JDict items) = inl TypeError)
  /\ ((forall s : string, dict_get items "timestamp" <> JStr s) ->
      get_log_time (JDict items) = inl TypeError)
  /\ (forall s : string,
        dict_get items "timestamp" = JStr s ->
        strptime s DATE_TIME_FORMAT = None ->
        get_log_time (JDict items) = inl ValueError)
  /\ (forall items' : list (string * json),
        dict_get items' "timestamp" = dict_get items "timestamp" ->
        get_log_time (JDict items') = get_log_time (JDict items))
  /\ (forall (e : exn) (other : json) (g1 g2 : gen) (written : list string),
        get_log_time (JDict items) = inl e ->
        truthy (JDict items) = true -> truthy other = true ->
        loop (JDict items) g1 other g2 = Raise e
        /\ (forall t : datetime,
              get_log_time other = inr t ->
              loop other g1 (JDict items) g2 = Raise e)
        /\ write_entries (Raise e) written = (Some e, written)).
Proof.
  split; [|split; [|split; [|split]]].
  - intros Habsent. simpl. now rewrite dict_get_absent.
  - intros Hnot. simpl. destruct (dict_get items "timestamp") eqn:Hget;
      try reflexivity. now destruct (Hnot s).
  - intros s Hget Hparse. simpl. now rewrite Hget, Hparse.
  - intros items' Hsame. simpl. now rewrite Hsame.
  - intros e other g1 g2 written Hfail Titems Tother.
    split; [|split; [|reflexivity]].
    + rewrite loop_unfold. unfold loop_body. rewrite Titems, Tother.
      cbn [orb andb]. now rewrite Hfail.
    + intros t Ht. rewrite loop_unfold. unfold loop_body.
      rewrite Titems, Tother. cbn [orb andb]. now rewrite Ht, Hfail.
Qed.

End Failures.

(** ** The writer and [main] *)

Section Runs.

Context {L : library}.

Lemma make_dirs_preserves (dirs : list path) :
  forall (fs fs1 : filesystem),
    make_dirs fs dirs = inr fs1 ->
    forall (p : path) (n : node), fs !! p = Some n -> fs1 !! p = Some n.
Proof.
  induction dirs as [|d dirs IH]; intros fs fs1 Hmk p n Hp; simpl in Hmk.
  - now inversion Hmk; subst.
  - destruct (fs !! d) as [[lines|]|] eqn:Hd; try discriminate.
    + now apply (IH fs fs1).
    + apply (IH _ fs1 Hmk). rewrite lookup_insert_ne; [assumption|].
      intros ->. congruence.
Qed.

Lemma mkdir_parents_preserves (fs fs1 : filesystem) (output_dir : path) :
  mkdir_parents fs output_dir = inr fs1 ->
  fs !! output_dir = None
  /\ forall (p : path) (n : node), fs !! p = Some n -> fs1 !! p = Some n.
Proof.
  unfold mkdir_parents. destruct (fs !! output_dir) eqn:Hout; [discriminate|].
  destruct (make_dirs fs (ancestors output_dir)) as [e|fs'] eqn:Hmk;
    [discriminate|].
  intros Heq. inversion Heq; subst fs1. split; [reflexivity|].
  intros p n Hp. rewrite lookup_insert_ne by (intros ->; congruence).
  now apply (make_dirs_preserves _ _ _ Hmk).
Qed.

Lemma is_file_lookup (fs : filesystem) (p : path) :
  is_file fs p = true -> exists lines, fs !! p = Some (File lines).
Proof.
  unfold is_file. destruct (fs !! p) as [[lines|]|]; try discriminate.
  now exists lines.
Qed.

Lemma open_file_generator_same (fs fs' : filesystem) (log_file : path) :
  fs' !! log_file = fs !! log_file ->
  open_file_generator log_file fs' = open_file_generator log_file fs.
Proof. unfold open_file_generator. now intros ->. Qed.

(** Past its two checks, a run is the writer's loop over the merge of
    the two input files; the output file holds what the loop wrote. *)
Lemma main_merges (log_path1 log_path2 output_dir : path) (fs fs1 : filesystem) :
  is_file fs log_path1 = true -> is_file fs log_path2 = true ->
  mkdir_parents fs output_dir = inr fs1 ->
  path_join output_dir LOG_FILENAME <> log_path1 ->
  path_join output_dir LOG_FILENAME <> log_path2 ->
  main log_path1 log_path2 output_dir fs
  = (fst (write_entries (sorted_log_generator log_path1 log_path2 fs) []),
     <[path_join output_dir LOG_FILENAME :=
         File (snd (write_entries (sorted_log_generator log_path1 log_path2 fs) []))]> fs1).
Proof.
  intros F1 F2 Hmk N1 N2. unfold main. rewrite F1, F2. cbn [andb].
  unfold create_output_file.
  destruct (mkdir_parents_preserves _ _ _ Hmk) as [Hout Hkeep].
  unfold path_exists. rewrite Hout, Hmk.
  destruct (is_file_lookup _ _ F1) as [lines1 H1].
  destruct (is_file_lookup _ _ F2) as [lines2 H2].
  assert (Hsame : sorted_log_generator log_path1 log_path2
                    (<[path_join output_dir LOG_FILENAME := File []]> fs1)
                  = sorted_log_generator log_path1 log_path2 fs).
  { unfold sorted_log_generator. f_equal; apply open_file_generator_same;
      rewrite lookup_insert_ne by assumption.
    - rewrite H1. now apply Hkeep.
    - rewrite H2. now apply Hkeep. }
  rewrite Hsame.
  destruct (write_entries (sorted_log_generator log_path1 log_path2 fs) [])
    as [raised written]. simpl. now rewrite insert_insert_eq.
Qed.



(** C9 (input check first): when one of the input paths is not an
    existing file, a run raises the error of the input check and
    returns the filesystem as it was: no directory or file is
    created and the merge does not start.  The error differs from
    the one raised for an existing output directory. *)
Theorem input_check_precedes_output
    (log_path1 log_path2 output_dir : path) (fs : filesystem) :
  is_file fs log_path1 = false \/ is_file fs log_path2 = false ->
  main log_path1 log_path2 output_dir fs = (Some input_not_found_error, fs)
  /\ input_not_found_error <> target_exists_error output_dir.
Proof.
  intros Hmissing. split.
  - unfold main. destruct Hmissing as [-> | ->]; [reflexivity|].
    now rewrite andb_false_r.
  - unfold input_not_found_error, target_exists_error. simpl. discriminate.
Qed.

End Runs.

(** * The properties on the sample files *)

Section Samples.

Local Existing Instance sample_library.

Local Ltac by_evaluation := vm_compute; reflexivity.
Local Ltac all_decode := repeat (constructor; [by_evaluation|]); constructor.
Local Ltac all_well_formed :=
  repeat (constructor; [eexists; by_evaluation|]); constructor.
Local Ltac in_order :=
  apply ordered_Sorted; repeat constructor; by_evaluation.

(** The example scenario: a tie between the two files, the first
    file wins. *)
Example example_scenario :
  sorted_log_generator a_path b_path sample_fs
  = gen_of_list [rec_a1; rec_b1; rec_b2].
Proof. by_evaluation. Qed.

Example example_scenario_swapped :
  sorted_log_generator b_path a_path sample_fs
  = gen_of_list [rec_b1; rec_a1; rec_b2].
Proof. by_evaluation. Qed.

Lemma order_property_witness :
  ending (sorted_log_generator a_path b_path sample_fs) = None
  /\ ordered (yielded (sorted_log_generator a_path b_path sample_fs)).
Proof.
  apply (order_property sample_fs a_path b_path
           [line_of rec_a1] [line_of rec_b1; line_of rec_b2]
           [rec_a1] [rec_b1; rec_b2]).
  - by_evaluation.
  - by_evaluation.
  - all_decode.
  - all_decode.
  - all_well_formed.
  - all_well_formed.
  - in_order.
  - in_order.
Defined.

Lemma tie_break_property_witness :
  loop rec_a1 Done rec_b1 (gen_of_list [rec_b2])
  = Yield rec_a1 (refill Done (fun v g => loop v g rec_b1 (gen_of_list [rec_b2]))).
Proof.
  apply (tie_break_property rec_a1 rec_b1 Done (gen_of_list [rec_b2])
           (mk_datetime 2024 1 1 10 0 0)).
  - by_evaluation.
  - by_evaluation.
Defined.

Lemma conservation_property_witness :
  let merged := sorted_log_generator a_path b_path sample_fs in
  ending merged = None
  /\ length (yielded merged) = (1 + 2)%nat
  /\ Permutation (yielded merged) ([rec_a1] ++ [rec_b1; rec_b2])
  /\ forall encoded : list string,
       encodes (yielded merged) encoded ->
       write_entries merged [] = (None, written_lines encoded).
Proof.
  apply (conservation_property sample_fs a_path b_path
           [line_of rec_a1] [line_of rec_b1; line_of rec_b2]
           [rec_a1] [rec_b1; rec_b2]).
  - by_evaluation.
  - by_evaluation.
  - all_decode.
  - all_decode.
  - all_well_formed.
  - all_well_formed.
Defined.

(** What the writer puts in the output file for the example scenario. *)
Example example_scenario_written :
  write_entries (sorted_log_generator a_path b_path sample_fs) []
  = (None, [line_of rec_a1; line_of rec_b1; line_of rec_b2]).
Proof. by_evaluation. Qed.

Lemma exhaustion_property_witness :
  sorted_log_generator empty_path b_path sample_fs = gen_of_list [rec_b1; rec_b2]
  /\ sorted_log_generator b_path empty_path sample_fs = gen_of_list [rec_b1; rec_b2].
Proof.
  apply (exhaustion_property sample_fs empty_path b_path
           [line_of rec_b1; line_of rec_b2] [rec_b1; rec_b2]).
  - by_evaluation.
  - by_evaluation.
  - discriminate.
  - all_decode.
  - all_well_formed.
Defined.


(** Against C5 as stated: with an existing output directory and a
    missing input, the run raises the error of the input check, not
    the one of [create_output_file]. *)
Lemma no_clobber_with_missing_input :
  path_exists sample_fs ["merged"] = true
  /\ is_file sample_fs missing_path = false
  /\ main missing_path b_path ["merged"] sample_fs
     = (Some input_not_found_error, sample_fs)
  /\ main missing_path b_path ["merged"] sample_fs
     <> (Some (target_exists_error ["merged"]), sample_fs).
Proof.
  split; [by_evaluation|]. split; [by_evaluation|].
  assert (Hrun : main missing_path b_path ["merged"] sample_fs
                 = (Some input_not_found_error, sample_fs)) by by_evaluation.
  split; [exact Hrun|]. rewrite Hrun.
  assert (Hne : input_not_found_error <> target_exists_error ["merged"])
    by (vm_compute; discriminate).
  intros Heq. apply Hne. congruence.
Qed.

(** The current directory as output directory: it exists. *)
Example current_directory_scenario :
  main a_path b_path [] sample_fs
  = (Some (FileExistsError
             ("Folder " ++ double_quote ++ "." ++ double_quote ++ " already exists.")),
     sample_fs).
Proof. by_evaluation. Qed.

(** The failure scenario: the second line of the first file has no
    timestamp; the line written before the failure stays. *)
Example failure_scenario :
  sorted_log_generator untimed_path b_path sample_fs = Yield rec_a1 (Raise TypeError)
  /\ fst (main untimed_path b_path ["out"] sample_fs) = Some TypeError
  /\ snd (main untimed_path b_path ["out"] sample_fs) !! ["out"; "merged_log.jsonl"]
     = Some (File [line_of rec_a1]).
Proof. repeat split; by_evaluation. Qed.


Lemma decode_error_propagates_witness :
  yielded (open_file_generator cut_path sample_fs) = [rec_a1]
  /\ ending (open_file_generator cut_path sample_fs)
     = Some (JSONDecodeError "Expecting property name enclosed in double quotes" bad_line 1)
  /\ fails_at cut_path sample_fs 1 (JSONDecodeError "Expecting property name enclosed in double quotes" bad_line 1).
Proof.
  apply (decode_error_propagates sample_fs cut_path [line_of rec_a1] [] bad_line
           [rec_a1] (JSONDecodeError "Expecting property name enclosed in double quotes" bad_line 1)).
  - by_evaluation.
  - all_decode.
  - by_evaluation.
Defined.

(** Against C7 as stated: the same undecodable line raises the same
    exception as line 1 of one file and as line 2 of another, so the
    exception tells neither the file nor the line number. *)
Lemma decode_error_does_not_locate :
  ~ exists locate : exn -> path * nat,
      forall (log_file : path) (n : nat) (e : exn),
        fails_at log_file sample_fs n e ->
        ending (open_file_generator log_file sample_fs) = Some e ->
        locate e = (log_file, n).
Proof.
  intros [locate Hlocate].
  pose (e := JSONDecodeError "Expecting property name enclosed in double quotes" bad_line 1).
  assert (H1 : locate e = (broken_path, 0%nat)).
  { apply Hlocate; [|by_evaluation].
    exists [bad_line; line_of rec_b2], bad_line, [].
    repeat split; try by_evaluation. constructor. }
  assert (H2 : locate e = (cut_path, 1%nat)).
  { apply Hlocate; [|by_evaluation].
    exists [line_of rec_a1; bad_line], bad_line, [rec_a1].
    repeat split; try by_evaluation. all_decode. }
  rewrite H1 in H2. discriminate.
Qed.

Lemma extractor_failures_witness :
  get_log_time rec_no_timestamp = inl TypeError
  /\ get_log_time rec_number_timestamp = inl TypeError
  /\ get_log_time rec_bad_timestamp = inl ValueError
  /\ loop rec_no_timestamp Done rec_b1 Done = Raise TypeError.
Proof.
  destruct (extractor_failures [("m", JStr "no timestamp")])
    as (Habsent & _ & _ & _ & Hfatal).
  destruct (extractor_failures [("timestamp", JInt 5)])
    as (_ & Hnot_str & _).
  destruct (extractor_failures [("timestamp", JStr "yesterday")])
    as (_ & _ & Hrejected & _).
  split; [|split; [|split]].
  - apply Habsent. by_evaluation.
  - apply Hnot_str. intros s. discriminate.
  - apply (Hrejected "yesterday"); by_evaluation.
  - apply (Hfatal TypeError rec_b1 Done Done []); by_evaluation.
Defined.

(** Against C8 as stated: the exception does not tell a missing
    ['timestamp'] from one that is present and does not match the
    format, since a value that is not a string raises what a missing
    key raises. *)
Lemma extractor_errors_not_by_presence :
  ~ exists missing_field_error timestamp_format_error : exn,
      missing_field_error <> timestamp_format_error
      /\ (forall items : list (string * json),
            dict_has items "timestamp" = false ->
            get_log_time (JDict items) = inl missing_field_error)
      /\ (forall items : list (string * json),
            dict_has items "timestamp" = true ->
            (forall (s : string) (t : datetime),
                dict_get items "timestamp" = JStr s ->
                strptime s DATE_TIME_FORMAT <> Some t) ->
            get_log_time (JDict items) = inl timestamp_format_error).
Proof.
  intros (missing & format & Hne & Hmissing & Hformat).
  specialize (Hmissing [("m", JStr "no timestamp")] eq_refl).
  assert (Hnum : get_log_time rec_number_timestamp = inl format).
  { apply Hformat; [reflexivity|]. intros s t Hget. discriminate. }
  vm_compute in Hmissing, Hnum. congruence.
Qed.

Lemma input_check_precedes_output_witness :
  main missing_path b_path ["out"] sample_fs = (Some input_not_found_error, sample_fs)
  /\ input_not_found_error <> target_exists_error ["out"].
Proof.
  apply (input_check_precedes_output missing_path b_path ["out"] sample_fs).
  left. by_evaluation.
Defined.

Lemma empty_record_ends_source_witness :
  sorted_log_generator hole_path b_path sample_fs
  = sorted_log_generator a_path b_path sample_fs
  /\ sorted_log_generator b_path hole_path sample_fs
     = sorted_log_generator b_path a_path sample_fs
  /\ ending (sorted_log_generator hole_path b_path sample_fs) = None
  /\ Permutation (yielded (sorted_log_generator hole_path b_path sample_fs))
                 ([rec_a1] ++ [rec_b1; rec_b2]).
Proof.
  destruct (empty_record_ends_source sample_fs a_path hole_path b_path
              [line_of rec_a1] [line_of rec_b2] (line_of rec_empty))
    as (_ & Hleft & Hright & Hwell).
  - by_evaluation.
  - by_evaluation.
  - by_evaluation.
  - destruct (Hwell [line_of rec_b1; line_of rec_b2] [rec_a1] [rec_b1; rec_b2])
      as (Hend & Hperm & _).
    + by_evaluation.
    + all_decode.
    + all_decode.
    + all_well_formed.
    + all_well_formed.
    + split; [exact Hleft | split; [exact Hright | split; [exact Hend | exact Hperm]]].
Defined.

(** The record after [{}] in the first file is later than every record
    of the second file and is still left out; no exception is raised. *)
Example empty_record_scenario :
  sorted_log_generator hole_path b_path sample_fs
  = gen_of_list [rec_a1; rec_b1; rec_b2]
  /\ sorted_log_generator hole_path empty_path sample_fs = gen_of_list [rec_a1].
Proof. split; by_evaluation. Qed.

End Samples.

(** * Further properties of the merge *)

Section Interleaving.

Context {L : library}.

Lemma merge_records_cons_cons (a b : json) (s1 s2 : list json) :
  merge_records (a :: s1) (b :: s2)
  = if instant_leb a b then a :: merge_records s1 (b :: s2)
    else b :: merge_records (a :: s1) s2.
Proof. reflexivity. Qed.

Lemma merge_records_sublists (s1 s2 : list json) :
  sublist s1 (merge_records s1 s2) /\ sublist s2 (merge_records s1 s2).
Proof.
  revert s2. induction s1 as [|a s1 IH1]; intros s2.
  - rewrite merge_records_nil_l. split; [apply sublist_nil_l | reflexivity].
  - induction s2 as [|b s2 IH2].
    + rewrite merge_records_nil_r. split; [reflexivity | apply sublist_nil_l].
    + rewrite merge_records_cons_cons. destruct (instant_leb a b).
      * destruct (IH1 (b :: s2)) as [H1 H2]. split.
        -- now apply sublist_skip.
        -- now apply sublist_cons.
      * destruct IH2 as [H1 H2]. split.
        -- now apply sublist_cons.
        -- now apply sublist_skip.
Qed.

(** X1 (stable interleaving): when every line of both files decodes to
    a well-formed record, the merge keeps the records of each file in
    the order the file has them, whether or not the files are
    ordered. *)
Theorem merge_keeps_file_order
    (fs : filesystem) (log1_path log2_path : path)
    (lines1 lines2 : list string) (records1 records2 : list json) :
  fs !! log1_path = Some (File lines1) ->
  fs !! log2_path = Some (File lines2) ->
  decodes lines1 records1 -> decodes lines2 records2 ->
  Forall well_formed records1 -> Forall well_formed records2 ->
  sublist records1 (yielded (sorted_log_generator log1_path log2_path fs))
  /\ sublist records2 (yielded (sorted_log_generator log1_path log2_path fs)).
Proof.
  intros H1 H2 D1 D2 W1 W2.
  rewrite (sorted_log_generator_well_formed fs _ _ _ _ _ _ H1 H2 D1 D2 W1 W2).
  rewrite yielded_gen_of_list. apply merge_records_sublists.
Qed.

Lemma instant_le_trans (a b c : json) :
  instant_le a b -> instant_le b c -> instant_le a c.
Proof.
  unfold instant_le, instant_leb.
  destruct (get_log_time a) as [|ta]; [discriminate|].
  destruct (get_log_time b) as [|tb]; [discriminate|].
  destruct (get_log_time c) as [|tc]; [discriminate|].
  apply datetime_le_trans.
Qed.




Lemma merge_records_comm (s1 : list json) :
  forall s2 : list json,
    (forall a b, In a s1 -> In b s2 -> instant_leb a b = negb (instant_leb b a)) ->
    merge_records s1 s2 = merge_records s2 s1.
Proof.
  induction s1 as [|a s1 IH1]; intros s2.
  - intros _. now rewrite merge_records_nil_l, merge_records_nil_r.
  - induction s2 as [|b s2 IH2]; intros Hno_tie.
    + now rewrite merge_records_nil_l, merge_records_nil_r.
    + rewrite !merge_records_cons_cons.
      rewrite (Hno_tie a b) by (now left).
      destruct (instant_leb b a); simpl.
      * f_equal. apply IH2. intros x y Hx Hy. apply Hno_tie; [assumption | now right].
      * f_equal. apply IH1. intros x y Hx Hy. apply Hno_tie; [now right | assumption].
Qed.

(** X3 (order of the arguments): on well-formed files in which no
    record of one file has the instant of a record of the other, the
    merge is the same whichever file is named first. *)
Theorem merge_commutes_without_ties
    (fs : filesystem) (log1_path log2_path : path)
    (lines1 lines2 : list string) (records1 records2 : list json) :
  fs !! log1_path = Some (File lines1) ->
  fs !! log2_path = Some (File lines2) ->
  decodes lines1 records1 -> decodes lines2 records2 ->
  Forall well_formed records1 -> Forall well_formed records2 ->
  (forall a b, In a records1 -> In b records2 ->
               instant_leb a b = negb (instant_leb b a)) ->
  sorted_log_generator log1_path log2_path fs
  = sorted_log_generator log2_path log1_path fs.
Proof.
  intros H1 H2 D1 D2 W1 W2 Hno_tie.
  rewrite (sorted_log_generator_well_formed fs _ _ _ _ _ _ H1 H2 D1 D2 W1 W2).
  rewrite (sorted_log_generator_well_formed fs _ _ _ _ _ _ H2 H1 D2 D1 W2 W1).
  f_equal. now apply merge_records_comm.
Qed.

End Interleaving.

Section AnyInput.

Context {L : library}.

Local Open Scope list_scope.

Lemma slot_submseteq (v : json) (rest : list json) :
  (if truthy v then [v] else []) ++ rest ⊆+ v :: rest.
Proof. destruct (truthy v); [reflexivity | now apply submseteq_cons]. Qed.

(** What the loop yields, for any slots and readers: truthy values,
    each taken from a slot or from a reader, none twice. *)
Lemma loop_yields (n : nat) :
  forall (file_log1 file_log2 : json) (g1 g2 : gen),
    (pending file_log1 g1 file_log2 g2 < n)%nat ->
    Forall (fun r => truthy r = true) (yielded (loop file_log1 g1 file_log2 g2))
    /\ yielded (loop file_log1 g1 file_log2 g2)
       ⊆+ ((if truthy file_log1 then [file_log1] else []) ++ yielded g1)
          ++ ((if truthy file_log2 then [file_log2] else []) ++ yielded g2).
Proof.
  induction n as [|n IH]; intros l1 l2 g1 g2 Hn; [lia|].
  assert (Hleft : truthy l1 = true ->
            Forall (fun r => truthy r = true)
              (yielded (Yield l1 (refill g1 (fun v g => loop v g l2 g2))))
            /\ yielded (Yield l1 (refill g1 (fun v g => loop v g l2 g2)))
               ⊆+ ([l1] ++ yielded g1)
                  ++ ((if truthy l2 then [l2] else []) ++ yielded g2)).
  { intros T1. destruct g1 as [| e | v g1]; unfold refill; simpl next_log; cbv iota beta.
    - destruct (IH None_ l2 Done g2) as [Ht Hs].
      { pose proof (pending_exhaust_left l1 l2 Done g2 T1 eq_refl). lia. }
      split; [now constructor|]. simpl. simpl in Hs. now apply submseteq_skip.
    - split; [repeat constructor; assumption|]. simpl.
      apply submseteq_skip, submseteq_nil_l.
    - destruct (IH v l2 g1 g2) as [Ht Hs].
      { pose proof (pending_refill_left v l1 l2 g1 g2 T1). lia. }
      split; [now constructor|]. simpl. apply submseteq_skip.
      etransitivity; [exact Hs|].
      apply (submseteq_app _ (v :: yielded g1)); [|reflexivity].
      apply slot_submseteq. }
  assert (Hright : truthy l2 = true ->
            Forall (fun r => truthy r = true)
              (yielded (Yield l2 (refill g2 (fun v g => loop l1 g1 v g))))
            /\ yielded (Yield l2 (refill g2 (fun v g => loop l1 g1 v g)))
               ⊆+ ((if truthy l1 then [l1] else []) ++ yielded g1)
                  ++ ([l2] ++ yielded g2)).
  { intros T2. simpl app at 3. rewrite <- Permutation_middle.
    destruct g2 as [| e | v g2]; unfold refill; simpl next_log; cbv iota beta.
    - destruct (IH l1 None_ g1 Done) as [Ht Hs].
      { pose proof (pending_exhaust_right l1 l2 g1 Done T2 eq_refl). lia. }
      split; [now constructor|]. simpl. simpl in Hs. now apply submseteq_skip.
    - split; [repeat constructor; assumption|]. simpl.
      apply submseteq_skip, submseteq_nil_l.
    - destruct (IH l1 v g1 g2) as [Ht Hs].
      { pose proof (pending_refill_right v l1 l2 g1 g2 T2). lia. }
      split; [now constructor|]. simpl. apply submseteq_skip.
      etransitivity; [exact Hs|].
      apply submseteq_app; [reflexivity|]. apply slot_submseteq. }
  rewrite loop_unfold. unfold loop_body.
  destruct (truthy l1) eqn:T1, (truthy l2) eqn:T2; cbn [orb andb negb].
  - destruct (get_log_time l1); [split; [constructor | apply submseteq_nil_l]|].
    destruct (get_log_time l2); [split; [constructor | apply submseteq_nil_l]|].
    destruct (datetime_le d d0); auto.
  - auto.
  - auto.
  - split; [constructor | apply submseteq_nil_l].
Qed.

Lemma merge_generators_yields (g1 g2 : gen) :
  Forall (fun r => truthy r = true) (yielded (merge_generators g1 g2))
  /\ yielded (merge_generators g1 g2) ⊆+ yielded g1 ++ yielded g2.
Proof.
  assert (Hloop : forall l1 h1 l2 h2,
            Forall (fun r => truthy r = true) (yielded (loop l1 h1 l2 h2))
            /\ yielded (loop l1 h1 l2 h2) ⊆+ (l1 :: yielded h1) ++ (l2 :: yielded h2)).
  { intros l1 h1 l2 h2.
    destruct (loop_yields _ l1 l2 h1 h2 (Nat.lt_succ_diag_r _)) as [Ht Hs].
    split; [exact Ht|]. etransitivity; [exact Hs|].
    apply submseteq_app; apply slot_submseteq. }
  assert (Hnone : forall l1 h1 h2,
            Forall (fun r => truthy r = true) (yielded (loop l1 h1 None_ h2))
            /\ yielded (loop l1 h1 None_ h2) ⊆+ (l1 :: yielded h1) ++ yielded h2).
  { intros l1 h1 h2.
    destruct (loop_yields _ l1 None_ h1 h2 (Nat.lt_succ_diag_r _)) as [Ht Hs].
    split; [exact Ht|]. etransitivity; [exact Hs|].
    apply submseteq_app; [apply slot_submseteq | reflexivity]. }
  unfold merge_generators, refill.
  destruct g1 as [| e1 | v1 g1]; simpl next_log; cbv iota beta.
  - destruct g2 as [| e2 | v2 g2]; simpl next_log; cbv iota beta.
    + destruct (loop_yields _ None_ None_ Done Done (Nat.lt_succ_diag_r _)) as [Ht Hs].
      split; [exact Ht | exact Hs].
    + split; [constructor | apply submseteq_nil_l].
    + destruct (loop_yields _ None_ v2 Done g2 (Nat.lt_succ_diag_r _)) as [Ht Hs].
      split; [exact Ht|]. etransitivity; [exact Hs|]. apply slot_submseteq.
  - split; [constructor | apply submseteq_nil_l].
  - destruct g2 as [| e2 | v2 g2]; simpl next_log; cbv iota beta.
    + destruct (Hnone v1 g1 Done) as [Ht Hs]. split; [exact Ht | exact Hs].
    + split; [constructor | apply submseteq_nil_l].
    + apply Hloop.
Qed.

Lemma read_lines_length (lines : list string) :
  (length (yielded (read_lines lines)) <= length lines)%nat.
Proof.
  induction lines as [|line lines IH]; simpl; [lia|].
  destruct (json_loads line); simpl; lia.
Qed.

(** X4 (nothing invented): whatever the two paths hold, the merge
    yields only truthy values, each one a value its reader yields and
    none more often than the readers yield it, so no more values than
    the two files have lines. *)
Theorem merge_yields_only_what_readers_yield
    (fs : filesystem) (log1_path log2_path : path) :
  let merged := sorted_log_generator log1_path log2_path fs in
  Forall (fun r => truthy r = true) (yielded merged)
  /\ yielded merged ⊆+ yielded (open_file_generator log1_path fs)
                       ++ yielded (open_file_generator log2_path fs)
  /\ forall lines1 lines2 : list string,
       fs !! log1_path = Some (File lines1) ->
       fs !! log2_path = Some (File lines2) ->
       (length (yielded merged) <= length lines1 + length lines2)%nat.
Proof.
  intros merged. unfold merged, sorted_log_generator.
  destruct (merge_generators_yields (open_file_generator log1_path fs)
              (open_file_generator log2_path fs)) as [Ht Hs].
  split; [exact Ht|]. split; [exact Hs|].
  intros lines1 lines2 H1 H2. apply submseteq_length in Hs.
  rewrite length_app in Hs. unfold open_file_generator in Hs at 3 4.
  rewrite H1, H2 in Hs.
  pose proof (read_lines_length lines1). pose proof (read_lines_length lines2). lia.
Qed.

Lemma loop_drain_right (s : list json) :
  Forall (fun r => truthy r = true) s ->
  loop None_ Done (slot_of s) (reader_of s) = gen_of_list s.
Proof.
  induction 1 as [|b s Hb Hs IH]; rewrite loop_unfold; [reflexivity|].
  unfold loop_body. simpl slot_of. rewrite Hb. cbn [truthy None_ orb andb negb].
  rewrite refill_reader_cons. cbn [gen_of_list]. now f_equal.
Qed.

Lemma loop_drain_left (s : list json) :
  Forall (fun r => truthy r = true) s ->
  loop (slot_of s) (reader_of s) None_ Done = gen_of_list s.
Proof.
  induction 1 as [|a s Ha Hs IH]; rewrite loop_unfold; [reflexivity|].
  unfold loop_body. simpl slot_of. rewrite Ha. cbn [truthy None_ orb andb negb].
  rewrite refill_reader_cons. cbn [gen_of_list]. now f_equal.
Qed.

(** X5 (no check against an empty file): merged with an empty file, in
    either order, a file whose lines decode to truthy values is yielded
    as it is; the values need no ['timestamp'] and need not be objects,
    since the extractor is called only when both slots are filled. *)
Theorem lone_file_is_not_checked
    (fs : filesystem) (empty_path s_path : path)
    (lines : list string) (records : list json) :
  fs !! empty_path = Some (File []) ->
  fs !! s_path = Some (File lines) ->
  decodes lines records ->
  Forall (fun r => truthy r = true) records ->
  sorted_log_generator empty_path s_path fs = gen_of_list records
  /\ sorted_log_generator s_path empty_path fs = gen_of_list records.
Proof.
  intros He Hs D T. unfold sorted_log_generator, open_file_generator.
  rewrite He, Hs, (read_lines_decodes _ _ D).
  change (read_lines []) with (gen_of_list []).
  rewrite !merge_generators_readers. split.
  - now apply loop_drain_right.
  - now apply loop_drain_left.
Qed.

(** X6 (falsy lines): a line that decodes to any falsy value, which is
    one of [None], [False], [0], a float zero, [""], [[]] and [{}],
    ends its file for the merge: the merge is that of the file cut
    before the line. *)
Theorem falsy_line_ends_source
    (fs : filesystem) (cut_path whole_path other_path : path)
    (pre post : list string) (line : string) (hole : json) :
  json_loads line = inr hole ->
  truthy hole = false ->
  fs !! whole_path = Some (File (pre ++ line :: post)) ->
  fs !! cut_path = Some (File pre) ->
  (hole = JNull \/ hole = JBool false \/ hole = JInt 0
   \/ (exists sign, hole = JFloat (S754_zero sign))
   \/ hole = JStr "" \/ hole = JList [] \/ hole = JDict [])
  /\ sorted_log_generator whole_path other_path fs
     = sorted_log_generator cut_path other_path fs
  /\ sorted_log_generator other_path whole_path fs
     = sorted_log_generator other_path cut_path fs.
Proof.
  intros Hline Hfalsy Hwhole Hcut. split; [|split].
  - destruct hole as [| b | n | f | s | items | items]; simpl in Hfalsy.
    + now left.
    + right; left. now subst b.
    + right; right; left. apply negb_false_iff, Z.eqb_eq in Hfalsy. now subst n.
    + right; right; right; left. destruct f; try discriminate. now eexists.
    + right; right; right; right; left. destruct s; [reflexivity | discriminate].
    + right; right; right; right; right; left.
      destruct items; [reflexivity | discriminate].
    + right; right; right; right; right; right.
      destruct items; [reflexivity | discriminate].
  - unfold sorted_log_generator, open_file_generator at 1 3.
    rewrite Hwhole, Hcut. now apply (merge_generators_cut_left line hole).
  - unfold sorted_log_generator, open_file_generator at 2 4.
    rewrite Hwhole, Hcut. now apply (merge_generators_cut_right line hole).
Qed.

End AnyInput.

(** * Further properties of the writer and of [main] *)

Section MoreRuns.

Context {L : library}.

Local Open Scope list_scope.

Lemma mkdir_parents_creates (fs fs1 : filesystem) (output_dir : path) :
  mkdir_parents fs output_dir = inr fs1 -> fs1 !! output_dir = Some Dir.
Proof.
  unfold mkdir_parents. destruct (fs !! output_dir); [discriminate|].
  destruct (make_dirs fs (ancestors output_dir)); [discriminate|].
  intros Heq. inversion Heq; subst fs1. apply lookup_insert_eq.
Qed.

Lemma path_join_ne (p : path) (name : string) : path_join p name <> p.
Proof.
  unfold path_join. intros Heq. apply (f_equal length) in Heq.
  rewrite length_app in Heq. simpl in Heq. lia.
Qed.

(** X7 (a successful run): when both input files hold well-formed
    records that all encode, and the output directory can be created,
    the run returns normally; the output directory is a directory, the
    output file holds one line for each line of the two inputs, in the
    order of the merge, and the input files are as they were. *)
Theorem successful_run
    (log_path1 log_path2 output_dir : path) (fs fs1 : filesystem)
    (lines1 lines2 : list string) (records1 records2 : list json)
    (encoded : list string) :
  fs !! log_path1 = Some (File lines1) ->
  fs !! log_path2 = Some (File lines2) ->
  decodes lines1 records1 -> decodes lines2 records2 ->
  Forall well_formed records1 -> Forall well_formed records2 ->
  mkdir_parents fs output_dir = inr fs1 ->
  path_join output_dir LOG_FILENAME <> log_path1 ->
  path_join output_dir LOG_FILENAME <> log_path2 ->
  encodes (yielded (sorted_log_generator log_path1 log_path2 fs)) encoded ->
  exists fs' : filesystem,
    main log_path1 log_path2 output_dir fs = (None, fs')
    /\ fs' !! output_dir = Some Dir
    /\ fs' !! path_join output_dir LOG_FILENAME = Some (File (written_lines encoded))
    /\ length (written_lines encoded) = (length lines1 + length lines2)%nat
    /\ fs' !! log_path1 = Some (File lines1)
    /\ fs' !! log_path2 = Some (File lines2).
Proof.
  intros H1 H2 D1 D2 W1 W2 Hmk N1 N2 Henc.
  assert (F1 : is_file fs log_path1 = true) by (unfold is_file; now rewrite H1).
  assert (F2 : is_file fs log_path2 = true) by (unfold is_file; now rewrite H2).
  pose proof (sorted_log_generator_well_formed fs _ _ _ _ _ _ H1 H2 D1 D2 W1 W2)
    as Hmerged.
  assert (Hend : ending (sorted_log_generator log_path1 log_path2 fs) = None)
    by (rewrite Hmerged; apply ending_gen_of_list).
  assert (Hlen : length (yielded (sorted_log_generator log_path1 log_path2 fs))
                 = (length lines1 + length lines2)%nat).
  { rewrite Hmerged, yielded_gen_of_list.
    rewrite (Permutation_length (merge_records_perm records1 records2)), length_app.
    now rewrite (Forall2_length _ _ _ D1), (Forall2_length _ _ _ D2). }
  destruct (mkdir_parents_preserves _ _ _ Hmk) as [_ Hkeep].
  rewrite (main_merges _ _ _ fs fs1 F1 F2 Hmk N1 N2).
  rewrite (write_entries_encodes _ _ [] Henc), Hend. simpl.
  eexists. split; [reflexivity|]. repeat split.
  - rewrite lookup_insert_ne by apply path_join_ne.
    now apply (mkdir_parents_creates fs).
  - apply lookup_insert_eq.
  - unfold written_lines. rewrite length_map.
    now rewrite <- (Forall2_length _ _ _ Henc).
  - rewrite lookup_insert_ne by assumption. now apply Hkeep.
  - rewrite lookup_insert_ne by assumption. now apply Hkeep.
Qed.

(** X8 (nothing else is touched): whatever the arguments and however
    the run ends, every file and directory that existed before the run
    is still there afterwards with the same content, except for what
    is at the path of the output file. *)
Theorem run_keeps_existing_entries
    (log_path1 log_path2 output_dir : path) (fs : filesystem)
    (p : path) (n : node) :
  fs !! p = Some n ->
  p <> path_join output_dir LOG_FILENAME ->
  snd (main log_path1 log_path2 output_dir fs) !! p = Some n.
Proof.
  intros Hp Hne. unfold main.
  destruct (is_file fs log_path1 && is_file fs log_path2); [|exact Hp].
  unfold create_output_file.
  destruct (path_exists fs output_dir); [exact Hp|].
  destruct (mkdir_parents fs output_dir) as [e|fs1] eqn:Hmk; [exact Hp|].
  destruct (mkdir_parents_preserves _ _ _ Hmk) as [_ Hkeep].
  destruct (write_entries _ []) as [raised written]. simpl.
  rewrite !lookup_insert_ne by (intros Heq; now apply Hne).
  now apply Hkeep.
Qed.

(** X10 (the output is an input): when [json.loads] gives back each
    record the merge yields from the line [json.dumps] makes of it,
    the reader of the output file of a run yields exactly the records
    the merge yielded, in order, and stops; this holds also for the
    lines left by a run whose merge ended with an exception. *)
Theorem output_file_reads_back
    (log_path1 log_path2 output_dir : path) (fs fs1 : filesystem)
    (encoded : list string) :
  is_file fs log_path1 = true -> is_file fs log_path2 = true ->
  mkdir_parents fs output_dir = inr fs1 ->
  path_join output_dir LOG_FILENAME <> log_path1 ->
  path_join output_dir LOG_FILENAME <> log_path2 ->
  Forall2 (fun r line => json_dumps r = inr line
                         /\ json_loads (line ++ newline)%string = inr r)
          (yielded (sorted_log_generator log_path1 log_path2 fs)) encoded ->
  fst (main log_path1 log_path2 output_dir fs)
  = ending (sorted_log_generator log_path1 log_path2 fs)
  /\ open_file_generator (path_join output_dir LOG_FILENAME)
       (snd (main log_path1 log_path2 output_dir fs))
     = gen_of_list (yielded (sorted_log_generator log_path1 log_path2 fs)).
Proof.
  intros F1 F2 Hmk N1 N2 Hround.
  assert (Henc : encodes (yielded (sorted_log_generator log_path1 log_path2 fs)) encoded).
  { eapply Forall2_impl; [exact Hround|]. now intros r line [Hd _]. }
  assert (Hdec : decodes (written_lines encoded)
                   (yielded (sorted_log_generator log_path1 log_path2 fs))).
  { unfold decodes, written_lines. apply Forall2_fmap_l, Forall2_flip.
    eapply Forall2_impl; [exact Hround|]. now intros r line [_ Hl]. }
  rewrite (main_merges _ _ _ fs fs1 F1 F2 Hmk N1 N2).
  rewrite (write_entries_encodes _ _ [] Henc). simpl. split; [reflexivity|].
  unfold open_file_generator. rewrite lookup_insert_eq.
  now apply read_lines_decodes.
Qed.

End MoreRuns.

Section OrderedInput.

Context {L : library}.

Lemma sublist_Forall_keep (P : json -> Prop) (l1 l2 : list json) :
  sublist l1 l2 -> Forall P l2 -> Forall P l1.
Proof.
  induction 1 as [|x l1 l2 _ IH|x l1 l2 _ IH]; intros HP.
  - constructor.
  - inversion HP; subst. constructor; auto.
  - inversion HP; subst. auto.
Qed.

Lemma sublist_StronglySorted_keep (l1 l2 : list json) :
  sublist l1 l2 -> StronglySorted instant_le l2 -> StronglySorted instant_le l1.
Proof.
  induction 1 as [|x l1 l2 Hsub IH|x l1 l2 _ IH]; intros Hs.
  - constructor.
  - apply StronglySorted_inv in Hs as [Hs Hx]. constructor; [auto|].
    now apply (sublist_Forall_keep _ l1 l2).
  - apply StronglySorted_inv in Hs as [Hs _]. auto.
Qed.

Lemma ordered_sublist (l1 l2 : list json) :
  sublist l1 l2 -> ordered l2 -> ordered l1.
Proof.
  intros Hsub Hord. apply ordered_Sorted, StronglySorted_Sorted.
  apply (sublist_StronglySorted_keep l1 l2 Hsub).
  apply Sorted_StronglySorted; [|now apply ordered_Sorted].
  intros a b c. apply instant_le_trans.
Qed.

(** X11 (the merge does not sort): on well-formed files the records
    the merge yields are in the order of their instants exactly when
    each of the two files is; a file that is out of order gives an
    output that is out of order, and no error. *)
Theorem output_ordered_iff_inputs_ordered
    (fs : filesystem) (log1_path log2_path : path)
    (lines1 lines2 : list string) (records1 records2 : list json) :
  fs !! log1_path = Some (File lines1) ->
  fs !! log2_path = Some (File lines2) ->
  decodes lines1 records1 -> decodes lines2 records2 ->
  Forall well_formed records1 -> Forall well_formed records2 ->
  ending (sorted_log_generator log1_path log2_path fs) = None
  /\ (ordered (yielded (sorted_log_generator log1_path log2_path fs))
      <-> ordered records1 /\ ordered records2).
Proof.
  intros H1 H2 D1 D2 W1 W2.
  rewrite (sorted_log_generator_well_formed fs _ _ _ _ _ _ H1 H2 D1 D2 W1 W2).
  rewrite ending_gen_of_list, yielded_gen_of_list. split; [reflexivity|].
  destruct (merge_records_sublists records1 records2) as [S1 S2]. split.
  - intros Hord. split; [now apply (ordered_sublist _ _ S1) | now apply (ordered_sublist _ _ S2)].
  - intros [O1 O2]. apply ordered_Sorted.
    apply merge_records_sorted; try assumption; now apply ordered_Sorted.
Qed.

End OrderedInput.

Section OutputDirectory.

Context {L : library}.




End OutputDirectory.

(** * The further properties on the sample files *)

Section MoreSamples.

Local Open Scope list_scope.

Local Ltac evaluate := vm_compute; reflexivity.
Local Ltac decode_all := repeat (constructor; [evaluate|]); constructor.
Local Ltac well_formed_all :=
  repeat (constructor; [eexists; evaluate|]); constructor.

Lemma merge_keeps_file_order_witness :
  sublist [rec_a1]
    (yielded (sorted_log_generator (L := sample_library) a_path b_path sample_fs))
  /\ sublist [rec_b1; rec_b2]
       (yielded (sorted_log_generator (L := sample_library) a_path b_path sample_fs)).
Proof.
  apply (merge_keeps_file_order (L := sample_library) sample_fs a_path b_path
           [line_of rec_a1] [line_of rec_b1; line_of rec_b2]
           [rec_a1] [rec_b1; rec_b2]).
  - evaluate.
  - evaluate.
  - decode_all.
  - decode_all.
  - well_formed_all.
  - well_formed_all.
Defined.


Lemma merge_commutes_without_ties_witness :
  sorted_log_generator (L := sample_library) a_path late_path scalar_fs
  = sorted_log_generator (L := sample_library) late_path a_path scalar_fs.
Proof.
  apply (merge_commutes_without_ties (L := sample_library) scalar_fs a_path late_path
           [line_of rec_a1] [line_of rec_b2] [rec_a1] [rec_b2]).
  - evaluate.
  - evaluate.
  - decode_all.
  - decode_all.
  - well_formed_all.
  - well_formed_all.
  - intros a b [<- | []] [<- | []]. evaluate.
Defined.

Lemma merge_yields_only_what_readers_yield_witness :
  (length (yielded (sorted_log_generator (L := sample_library) hole_path b_path sample_fs))
   <= 3 + 2)%nat.
Proof.
  destruct (merge_yields_only_what_readers_yield (L := sample_library)
              sample_fs hole_path b_path) as (_ & _ & Hlen).
  apply (Hlen [line_of rec_a1; line_of rec_empty; line_of rec_b2]
              [line_of rec_b1; line_of rec_b2]).
  - evaluate.
  - evaluate.
Defined.

Lemma lone_file_is_not_checked_witness :
  sorted_log_generator (L := sample_library) empty_path untimed_path sample_fs
  = gen_of_list [rec_a1; rec_no_timestamp]
  /\ sorted_log_generator (L := sample_library) untimed_path empty_path sample_fs
     = gen_of_list [rec_a1; rec_no_timestamp].
Proof.
  apply (lone_file_is_not_checked (L := sample_library) sample_fs empty_path untimed_path
           [line_of rec_a1; line_of rec_no_timestamp] [rec_a1; rec_no_timestamp]).
  - evaluate.
  - evaluate.
  - decode_all.
  - repeat constructor.
Defined.

Lemma falsy_line_ends_source_witness :
  (JNull = JNull \/ JNull = JBool false \/ JNull = JInt 0
   \/ (exists sign, JNull = JFloat (S754_zero sign))
   \/ JNull = JStr "" \/ JNull = JList [] \/ JNull = JDict [])
  /\ sorted_log_generator (L := scalar_library) nulled_path b_path scalar_fs
     = sorted_log_generator (L := scalar_library) a_path b_path scalar_fs
  /\ sorted_log_generator (L := scalar_library) b_path nulled_path scalar_fs
     = sorted_log_generator (L := scalar_library) b_path a_path scalar_fs.
Proof.
  apply (falsy_line_ends_source (L := scalar_library) scalar_fs a_path nulled_path b_path
           [line_of rec_a1] [line_of rec_b2] null_line JNull).
  - evaluate.
  - evaluate.
  - evaluate.
  - evaluate.
Defined.

Lemma successful_run_witness :
  exists fs' : filesystem,
    main (L := sample_library) a_path b_path ["tmp"; "out"] sample_fs = (None, fs')
    /\ fs' !! ["tmp"; "out"] = Some Dir
    /\ fs' !! path_join ["tmp"; "out"] LOG_FILENAME
       = Some (File (written_lines [text_of rec_a1; text_of rec_b1; text_of rec_b2]))
    /\ length (written_lines [text_of rec_a1; text_of rec_b1; text_of rec_b2])
       = (1 + 2)%nat
    /\ fs' !! a_path = Some (File [line_of rec_a1])
    /\ fs' !! b_path = Some (File [line_of rec_b1; line_of rec_b2]).
Proof.
  apply (successful_run (L := sample_library) a_path b_path ["tmp"; "out"] sample_fs
           (<[ ["tmp"; "out"] := Dir ]> (<[ ["tmp"] := Dir ]> sample_fs))
           [line_of rec_a1] [line_of rec_b1; line_of rec_b2]
           [rec_a1] [rec_b1; rec_b2]
           [text_of rec_a1; text_of rec_b1; text_of rec_b2]).
  - evaluate.
  - evaluate.
  - decode_all.
  - decode_all.
  - well_formed_all.
  - well_formed_all.
  - evaluate.
  - discriminate.
  - discriminate.
  - repeat (constructor; [evaluate|]); constructor.
Defined.

Lemma run_keeps_existing_entries_witness :
  snd (main (L := sample_library) untimed_path b_path ["out"] sample_fs) !! a_path
  = Some (File [line_of rec_a1]).
Proof.
  apply (run_keeps_existing_entries (L := sample_library) untimed_path b_path ["out"]
           sample_fs a_path (File [line_of rec_a1])).
  - evaluate.
  - discriminate.
Defined.

Lemma output_file_reads_back_witness :
  fst (main (L := sample_library) a_path b_path ["out"] sample_fs)
  = ending (sorted_log_generator (L := sample_library) a_path b_path sample_fs)
  /\ open_file_generator (L := sample_library) (path_join ["out"] LOG_FILENAME)
       (snd (main (L := sample_library) a_path b_path ["out"] sample_fs))
     = gen_of_list
         (yielded (sorted_log_generator (L := sample_library) a_path b_path sample_fs)).
Proof.
  apply (output_file_reads_back (L := sample_library) a_path b_path ["out"] sample_fs
           (<[ ["out"] := Dir ]> sample_fs)
           [text_of rec_a1; text_of rec_b1; text_of rec_b2]).
  - evaluate.
  - evaluate.
  - evaluate.
  - discriminate.
  - discriminate.
  - repeat (constructor; [split; evaluate|]); constructor.
Defined.

Lemma output_ordered_iff_inputs_ordered_witness :
  ending (sorted_log_generator (L := sample_library) a_path b_path sample_fs) = None
  /\ (ordered (L := sample_library)
        (yielded (sorted_log_generator (L := sample_library) a_path b_path sample_fs))
      <-> ordered (L := sample_library) [rec_a1]
          /\ ordered (L := sample_library) [rec_b1; rec_b2]).
Proof.
  apply (output_ordered_iff_inputs_ordered (L := sample_library) sample_fs a_path b_path
           [line_of rec_a1] [line_of rec_b1; line_of rec_b2]
           [rec_a1] [rec_b1; rec_b2]).
  - evaluate.
  - evaluate.
  - decode_all.
  - decode_all.
  - well_formed_all.
  - well_formed_all.
Defined.


End MoreSamples.
